(** * Doc Zaddy UI: the Diagnosis Request Client

    A shallow embedding of [handleDiagnose] and of the rendering of the
    confidence percentage, as written in the two copies of [src/App.js]:
    the copy with a configurable API base address and the copy with the
    base address fixed to a local one.

    JavaScript strings are sequences of UTF-16 code units; the built-ins
    the handler calls ([String.prototype.split] with a regular expression,
    [String.prototype.trim], [Array.prototype.filter] with [Boolean]) are
    written after their ECMAScript definitions. Numbers are IEEE 754
    binary64 values, as [spec_float] with the operations of [SpecFloat]. *)

From Stdlib Require Import String Ascii.
From Stdlib Require Import List NArith ZArith QArith Bool Lia Arith.
From Stdlib Require Import SpecFloat.
From Equations Require Import Equations.
Import ListNotations.
Close Scope Q_scope.

Set Implicit Arguments.

(* ===================================================================== *)
(** ** JavaScript strings *)
(* ===================================================================== *)

Definition code_unit := N.
Definition jsstring := list code_unit.

(** A string literal of the source, as code units. *)
Definition lit (s : string) : jsstring :=
  map N_of_ascii (list_ascii_of_string s).

(** ECMAScript [WhiteSpace]: TAB, VT, FF, SP, NBSP, ZWNBSP and the
    Unicode space separators. *)
Definition is_white_space (c : code_unit) : bool :=
  ((c =? 9) || (c =? 11) || (c =? 12) || (c =? 32) || (c =? 160)
   || (c =? 5760) || ((8192 <=? c) && (c <=? 8202))
   || (c =? 8239) || (c =? 8287) || (c =? 12288) || (c =? 65279))%N.

(** ECMAScript [LineTerminator]: LF, CR, LS, PS. *)
Definition is_line_terminator (c : code_unit) : bool :=
  ((c =? 10) || (c =? 13) || (c =? 8232) || (c =? 8233))%N.

(** The character class [\s], which is also the set [trim] strips. *)
Definition class_s (c : code_unit) : bool :=
  is_white_space c || is_line_terminator c.

Definition comma : code_unit := 44%N.
Definition is_comma (c : code_unit) : bool := (c =? comma)%N.

Fixpoint drop_while (f : code_unit -> bool) (s : jsstring) : jsstring :=
  match s with
  | [] => []
  | c :: s' => if f c then drop_while f s' else s
  end.

(** [String.prototype.trim]: strip [WhiteSpace] and [LineTerminator] code
    units from both ends. *)
Definition String_trim (s : jsstring) : jsstring :=
  rev (drop_while class_s (rev (drop_while class_s s))).

(** [str.substring(from, to)] for [from <= to <= length str]. *)
Definition substring (str : jsstring) (from to : nat) : jsstring :=
  firstn (to - from) (skipn from str).

(* ===================================================================== *)
(** ** Regular expressions: the fragment the separator expression needs *)
(* ===================================================================== *)

Inductive regex : Type :=
| Class (c : code_unit -> bool)     (* a character class *)
| Plus (r : regex)                  (* r+, greedy *)
| Alt (r1 r2 : regex).              (* r1|r2 *)

(** A continuation receives the input that is left and answers with the
    input left at the end of the whole match, or fails. *)
Definition cont := jsstring -> option jsstring.
Definition matcher := jsstring -> cont -> option jsstring.

(** Greedy [r*] after the first iteration of [r+]: try one more iteration
    (which has to consume input), and fall back to the continuation. At
    most [n] further iterations are tried; each one consumes a code unit,
    so the length of the input is enough. *)
Fixpoint repeat_star (m : matcher) (k : cont) (n : nat) (x : jsstring)
  : option jsstring :=
  match n with
  | O => k x
  | S n' =>
      match m x (fun y => if length y <? length x
                          then repeat_star m k n' y else None) with
      | Some z => Some z
      | None => k x
      end
  end.

(** The backtracking matcher of the ECMAScript pattern semantics. *)
Fixpoint rmatch (r : regex) : matcher :=
  match r with
  | Class c => fun s k =>
      match s with
      | x :: s' => if c x then k s' else None
      | [] => None
      end
  | Alt r1 r2 => fun s k =>
      match rmatch r1 s k with
      | Some z => Some z
      | None => rmatch r2 s k
      end
  | Plus r1 => fun s k =>
      rmatch r1 s (repeat_star (rmatch r1) k (length s))
  end.

(** Length of the match of [r] anchored at the start of [s] (a sticky
    [exec]), if there is one. *)
Definition match_length (r : regex) (s : jsstring) : option nat :=
  match rmatch r s Some with
  | Some rest => Some (length s - length rest)
  | None => None
  end.

(** The splitter of the handler: [/\s+|,+/]. *)
Definition separator_regex : regex :=
  Alt (Plus (Class class_s)) (Plus (Class is_comma)).

(* ===================================================================== *)
(** ** [String.prototype.split] with a regular expression *)
(* ===================================================================== *)

(** The loop of [RegExp.prototype[@@split]]: [p] is the start of the piece
    being collected, [q] the position where a match is tried, [A] the
    pieces so far. A match at [q] of length [len] ends at
    [e = min (q + len) size]; an empty match at the start of the piece
    ([e = p]) only moves [q] on. No limit is passed, and the default one,
    2^32 - 1 pieces, is more than a string can give. *)
Equations split_loop (R : regex) (str : jsstring) (p q : nat)
  (A : list jsstring) : list jsstring
  by wf (2 * (length str - q) + (if p =? q then 0 else 1)) lt :=
split_loop R str p q A with (lt_dec q (length str)) := {
  | right _ => A ++ [substring str p (length str)]
  | left _ with match_length R (skipn q str) := {
      | None => split_loop R str p (q + 1) A
      | Some len with (Nat.eq_dec (Nat.min (q + len) (length str)) p) := {
          | left _ => split_loop R str p (q + 1) A
          | right _ =>
              split_loop R str (Nat.min (q + len) (length str))
                (Nat.min (q + len) (length str)) (A ++ [substring str p q]) } } }.
Solve All Obligations with
  (intros;
   repeat match goal with
          | |- context [?a =? ?b] => destruct (Nat.eqb_spec a b)
          end; lia).

(** [str.split(R)]: the empty string gives no piece when [R] matches it
    and the one empty piece otherwise; any other string goes through the
    loop from position 0. *)
Definition String_split (R : regex) (str : jsstring) : list jsstring :=
  match str with
  | [] => match match_length R [] with
          | Some _ => []
          | None => [str]
          end
  | _ :: _ => split_loop R str 0 0 []
  end.

(** [Boolean(t)] for a string [t]: the empty string is the only falsy one. *)
Definition String_truthy (t : jsstring) : bool :=
  match t with
  | [] => false
  | _ :: _ => true
  end.

(** The token expression of [handleDiagnose]:
    [symptoms.split(/\s+|,+/).map((t) => t.trim()).filter(Boolean)]. *)
Definition tokenize (symptoms : jsstring) : list jsstring :=
  filter String_truthy
    (map String_trim (String_split separator_regex symptoms)).

(* ===================================================================== *)
(** ** The reference tokenizer, after the words of the specification *)
(* ===================================================================== *)

(** A separator run is a run of whitespace or a run of commas. *)
Inductive run_kind : Type := WhitespaceRun | CommaRun.

Definition classify (c : code_unit) : option run_kind :=
  if class_s c then Some WhitespaceRun
  else if is_comma c then Some CommaRun
  else None.

Definition in_kind (k : run_kind) (c : code_unit) : bool :=
  match k with
  | WhitespaceRun => class_s c
  | CommaRun => is_comma c
  end.

Definition continues (run : option run_kind) (k : run_kind) : bool :=
  match run, k with
  | Some WhitespaceRun, WhitespaceRun => true
  | Some CommaRun, CommaRun => true
  | _, _ => false
  end.

(** Split on runs: [run] is the run the scan is inside of, if any, and
    [cur] the piece collected since the last run. A separator that
    continues the run is skipped; one that starts a run closes the piece. *)
Fixpoint spec_pieces (run : option run_kind) (cur s : jsstring)
  : list jsstring :=
  match s with
  | [] => [cur]
  | c :: s' =>
      match classify c with
      | None => spec_pieces None (cur ++ [c]) s'
      | Some k =>
          if continues run k then spec_pieces run cur s'
          else cur :: spec_pieces (Some k) [] s'
      end
  end.

Definition spec_split (s : jsstring) : list jsstring :=
  spec_pieces None [] s.

(** Trim: drop the whitespace at the front, then the whitespace at the
    back. *)
Fixpoint drop_trailing (s : jsstring) : jsstring :=
  match s with
  | [] => []
  | c :: s' =>
      match drop_trailing s' with
      | [] => if class_s c then [] else [c]
      | t => c :: t
      end
  end.

Definition spec_trim (s : jsstring) : jsstring :=
  drop_trailing (drop_while class_s s).

Definition spec_nonempty (s : jsstring) : bool :=
  negb (length s =? 0).

Definition spec_tokenize (s : jsstring) : list jsstring :=
  filter spec_nonempty (map spec_trim (spec_split s)).

(* ===================================================================== *)
(** ** Tokens as maximal runs without a separator *)
(* ===================================================================== *)

(** A separator is a whitespace code unit or a comma. *)
Definition is_separator (c : code_unit) : bool := class_s c || is_comma c.

(** [clean t]: no separator occurs in [t]. *)
Definition clean (t : jsstring) : bool :=
  forallb (fun c => negb (is_separator c)) t.

(** The token being collected is closed: it counts when it is not
    empty. *)
Definition close_token (cur : jsstring) : list jsstring :=
  if String_truthy cur then [cur] else [].

(** The tokens of [s], scanning with the token [cur] being collected:
    the maximal non-empty runs of code units that are not separators. *)
Fixpoint words (cur s : jsstring) : list jsstring :=
  match s with
  | [] => close_token cur
  | c :: s' =>
      if is_separator c then close_token cur ++ words [] s'
      else words (cur ++ [c]) s'
  end.

(** What [filter(Boolean)] and the separator expression guarantee of every
    token: it is not empty and holds no whitespace and no comma. *)
Definition token_ok (t : jsstring) : Prop :=
  t <> [] /\ clean t = true.

(** [Array.prototype.join] on an array of strings. *)
Fixpoint Array_join (sep : jsstring) (l : list jsstring) : jsstring :=
  match l with
  | [] => []
  | t :: l' =>
      match l' with
      | [] => t
      | _ :: _ => t ++ sep ++ Array_join sep l'
      end
  end.

(* ===================================================================== *)
(** ** JavaScript values *)
(* ===================================================================== *)

(** Numbers are binary64 floating-point values. *)
Definition number := spec_float.

(** The values the handler meets: what [JSON.parse] gives, and
    undefined. An object is the list of its own properties, each key once. *)
#[local] Unset Elimination Schemes.
Inductive value : Type :=
| JUndefined
| JNull
| JBool (b : bool)
| JNum (x : number)
| JStr (s : jsstring)
| JArr (items : list value)
| JObj (fields : list (jsstring * value)).
#[local] Set Elimination Schemes.

(** What a handler throws or a promise rejects with: an error object with
    its name and message, or any other value. *)
Inductive thrown : Type :=
| ErrorObject (name : string) (message : jsstring)
| ThrownValue (v : value).

Definition number_falsy (x : number) : bool :=
  match x with
  | S754_zero _ | S754_nan => true
  | _ => false
  end.

(** [ToBoolean]: undefined, null, false, the zeros, NaN and the empty
    string are falsy; every array and object is truthy. *)
Definition ToBoolean (v : value) : bool :=
  match v with
  | JUndefined | JNull => false
  | JBool b => b
  | JNum x => negb (number_falsy x)
  | JStr s => String_truthy s
  | JArr _ | JObj _ => true
  end.

(** [a || b] *)
Definition logical_or (a b : value) : value :=
  if ToBoolean a then a else b.

Fixpoint jsstring_eqb (a b : jsstring) : bool :=
  match a, b with
  | [], [] => true
  | x :: a', y :: b' => (x =? y)%N && jsstring_eqb a' b'
  | _, _ => false
  end.

Fixpoint own_property (key : jsstring) (fields : list (jsstring * value))
  : option value :=
  match fields with
  | [] => None
  | (k, v) :: rest => if jsstring_eqb k key then Some v else own_property key rest
  end.

(** [v.key], for a key that is on no prototype ([results], [message] and
    [confidence] are the keys read): reading from undefined or null throws
    a TypeError (the message is the engine's), a missing property reads as
    undefined. *)
Definition Get (v : value) (key : jsstring) : thrown + value :=
  match v with
  | JUndefined =>
      inl (ErrorObject "TypeError"
             (lit "Cannot read properties of undefined (reading '"
              ++ key ++ lit "')"))
  | JNull =>
      inl (ErrorObject "TypeError"
             (lit "Cannot read properties of null (reading '"
              ++ key ++ lit "')"))
  | JObj fields =>
      match own_property key fields with
      | Some x => inr x
      | None => inr JUndefined
      end
  | _ => inr JUndefined
  end.

(** Decimal digits of a non-negative integer. *)
Fixpoint uint_codes (u : Decimal.uint) : jsstring :=
  match u with
  | Decimal.Nil => []
  | Decimal.D0 u' => 48%N :: uint_codes u'
  | Decimal.D1 u' => 49%N :: uint_codes u'
  | Decimal.D2 u' => 50%N :: uint_codes u'
  | Decimal.D3 u' => 51%N :: uint_codes u'
  | Decimal.D4 u' => 52%N :: uint_codes u'
  | Decimal.D5 u' => 53%N :: uint_codes u'
  | Decimal.D6 u' => 54%N :: uint_codes u'
  | Decimal.D7 u' => 55%N :: uint_codes u'
  | Decimal.D8 u' => 56%N :: uint_codes u'
  | Decimal.D9 u' => 57%N :: uint_codes u'
  end.

Definition N_toString (n : N) : jsstring := uint_codes (N.to_uint n).

(* ===================================================================== *)
(** ** The network, as the handler meets it *)
(* ===================================================================== *)

(** How a promise ends: fulfilled, rejected, or never settled. *)
Inductive settle (A : Type) : Type :=
| Fulfilled (a : A)
| Rejected (e : thrown)
| NeverSettles.
Arguments Rejected {A} e.
Arguments NeverSettles {A}.

(** [promise.catch(h)] with a handler that returns a value. *)
Definition Promise_catch {A : Type} (p : settle A) (h : thrown -> A)
  : settle A :=
  match p with
  | Rejected e => Fulfilled (h e)
  | _ => p
  end.

(** A response: its status line and how reading its body as text and as
    JSON ends. *)
Record Response : Type := {
  status : N;
  statusText : jsstring;
  text : settle jsstring;
  json : settle value
}.

(** [resp.ok]: the status is in the range 200-299. *)
Definition ok (resp : Response) : bool :=
  ((200 <=? status resp) && (status resp <=? 299))%N.

(** The text [JSON.stringify] writes for a value. *)
Inductive json_text : Type :=
| JSON_stringify (v : value).

(** The options object passed to [fetch]. *)
Record RequestInit : Type := {
  method : jsstring;
  headers : list (jsstring * jsstring);
  body : json_text
}.

(* ===================================================================== *)
(** ** View state and effects *)
(* ===================================================================== *)

(** The four [useState] cells of [App]. *)
Record View : Type := {
  symptoms : jsstring;
  results : value;
  loading : bool;
  error : value
}.

(** [useState("")], [useState([])], [useState(false)], [useState("")]. *)
Definition initial_view : View :=
  {| symptoms := lit ""; results := JArr []; loading := false;
     error := JStr (lit "") |}.

(** What a handler does, in order: calls of the state setters, the network
    call, reads of the response body, and the console. *)
Inductive event : Type :=
| SetSymptoms (v : jsstring)
| SetResults (v : value)
| SetLoading (b : bool)
| SetError (v : value)
| FetchCall (url : jsstring) (init : RequestInit)
| ReadText
| ReadJson
| ConsoleError (label : jsstring) (e : thrown).

Definition apply_event (st : View) (ev : event) : View :=
  match ev with
  | SetSymptoms v =>
      {| symptoms := v; results := results st; loading := loading st;
         error := error st |}
  | SetResults v =>
      {| symptoms := symptoms st; results := v; loading := loading st;
         error := error st |}
  | SetLoading b =>
      {| symptoms := symptoms st; results := results st; loading := b;
         error := error st |}
  | SetError v =>
      {| symptoms := symptoms st; results := results st;
         loading := loading st; error := v |}
  | _ => st
  end.

(** The view after the state updates of a trace are applied in order. *)
Definition replay (st : View) (tr : list event) : View :=
  fold_left apply_event tr st.

(** The network calls of a trace. *)
Fixpoint fetch_calls (tr : list event) : list (jsstring * RequestInit) :=
  match tr with
  | [] => []
  | FetchCall url init :: tr' => (url, init) :: fetch_calls tr'
  | _ :: tr' => fetch_calls tr'
  end.

(** How the run of an async function ends: it returns, it throws (the
    promise it returned rejects), or it stays suspended at an [await]
    whose promise never settles. *)
Inductive completion (A : Type) : Type :=
| Normal (a : A)
| Abrupt (e : thrown)
| Suspended.
Arguments Abrupt {A} e.
Arguments Suspended {A}.

(** An async computation: the events it performs and how it ends. *)
Definition Async (A : Type) : Type := (list event * completion A)%type.

Definition ret {A : Type} (a : A) : Async A := ([], Normal a).

Definition bind {A B : Type} (m : Async A) (f : A -> Async B) : Async B :=
  match m with
  | (tr, Normal a) => let (tr', c) := f a in (tr ++ tr', c)
  | (tr, Abrupt e) => (tr, Abrupt e)
  | (tr, Suspended) => (tr, Suspended)
  end.

Declare Scope async_scope.
Delimit Scope async_scope with async.
Notation "x <- m ;; k" := (bind m (fun x => k))
  (at level 61, m at next level, right associativity) : async_scope.
Notation "m ;; k" := (bind m (fun _ => k))
  (at level 61, right associativity) : async_scope.
Open Scope async_scope.

Definition perform (ev : event) : Async unit := ([ev], Normal tt).
Definition throw {A : Type} (e : thrown) : Async A := ([], Abrupt e).

Definition lift {A : Type} (r : thrown + A) : Async A :=
  match r with
  | inl e => throw e
  | inr a => ret a
  end.

(** [await p] *)
Definition await {A : Type} (p : settle A) : Async A :=
  match p with
  | Fulfilled a => ret a
  | Rejected e => throw e
  | NeverSettles => ([], Suspended)
  end.

(** [try { body } catch (err) { handler } finally { fin }]: the handler
    runs when the body throws; the finally block runs whenever control
    leaves the statement, and never if the body stays suspended. *)
Definition try_catch_finally {A : Type} (body : Async A)
  (handler : thrown -> Async A) (fin : Async unit) : Async A :=
  let caught :=
    match body with
    | (tr, Abrupt e) => let (tr', c) := handler e in (tr ++ tr', c)
    | _ => body
    end in
  match caught with
  | (tr, Suspended) => (tr, Suspended)
  | (tr, c) =>
      match fin with
      | (tr', Normal _) => (tr ++ tr', c)
      | (tr', Abrupt e) => (tr ++ tr', Abrupt e)
      | (tr', Suspended) => (tr ++ tr', Suspended)
      end
  end.

Definition setSymptoms (v : jsstring) : Async unit := perform (SetSymptoms v).
Definition setResults (v : value) : Async unit := perform (SetResults v).
Definition setLoading (b : bool) : Async unit := perform (SetLoading b).
Definition setError (v : value) : Async unit := perform (SetError v).
Definition console_error (label : jsstring) (e : thrown) : Async unit :=
  perform (ConsoleError label e).

(** [await fetch(url, init)], where [net] is how the call ends. *)
Definition fetch (url : jsstring) (init : RequestInit)
  (net : settle Response) : Async Response :=
  perform (FetchCall url init) ;; await net.

(** [resp.text()] and [resp.json()] start reading the body and return a
    promise. *)
Definition Response_text (resp : Response) : Async (settle jsstring) :=
  perform ReadText ;; ret (text resp).
Definition Response_json (resp : Response) : Async (settle value) :=
  perform ReadJson ;; ret (json resp).

(** An identifier that no enclosing scope declares is looked up in the
    global scope, and throws a ReferenceError when it is not bound there. *)
Definition resolve_identifier (name : jsstring) (binding : option value)
  : Async value :=
  match binding with
  | Some v => ret v
  | None => throw (ErrorObject "ReferenceError" (name ++ lit " is not defined"))
  end.

Definition trace {A : Type} (m : Async A) : list event := fst m.
Definition outcome {A : Type} (m : Async A) : completion A := snd m.

(** The view once the handler's updates are flushed. *)
Definition final_view {A : Type} (st : View) (m : Async A) : View :=
  replay st (trace m).

(* ===================================================================== *)
(** ** [handleDiagnose], copy with the base address fixed *)
(* ===================================================================== *)

Module Local.

Definition API_BASE : jsstring := lit "http://127.0.0.1:8001".

(** The [onChange] of the text area: [(e) => setSymptoms(e.target.value)]. *)
Definition onChange (target_value : jsstring) : Async unit :=
  setSymptoms target_value.

Definition handleDiagnose (st : View) (net : settle Response)
  : Async unit :=
  setError (JStr (lit "")) ;;
  setResults (JArr []) ;;
  let tokens := tokenize (symptoms st) in
  if length tokens =? 0 then
    setError (JStr (lit "Please enter at least one symptom.")) ;;
    ret tt
  else
    setLoading true ;;
    try_catch_finally
      (resp <- fetch (API_BASE ++ lit "/api/diagnose")
                 {| method := lit "POST";
                    headers := [(lit "Content-Type", lit "application/json")];
                    body := JSON_stringify
                              (JObj [(lit "symptoms",
                                      JArr (map JStr tokens))]) |}
                 net ;;
       (if negb (ok resp) then
          p <- Response_text resp ;;
          txt <- await (Promise_catch p (fun _ => statusText resp)) ;;
          throw (ErrorObject "Error"
                   (lit "API error " ++ N_toString (status resp)
                    ++ lit ": " ++ txt))
        else ret tt) ;;
       p <- Response_json resp ;;
       data <- await p ;;
       r <- lift (Get data (lit "results")) ;;
       if ToBoolean r then
         r' <- lift (Get data (lit "results")) ;;
         setResults r'
       else
         m <- lift (Get data (lit "message")) ;;
         setError (logical_or m (JStr (lit "No results returned"))))
      (fun err =>
         console_error (lit "Diagnosis request failed:") err ;;
         setError (JStr (lit "Failed to fetch diagnosis. Please check API connection.")))
      (setLoading false).

End Local.

(* ===================================================================== *)
(** ** [handleDiagnose], copy with the configurable base address *)
(* ===================================================================== *)

Module Configurable.

(** [process.env.REACT_APP_API_URL || "https://doc-zaddy.onrender.com"];
    the environment entry is a string or is not set. *)
Definition API_BASE (REACT_APP_API_URL : option jsstring) : jsstring :=
  match REACT_APP_API_URL with
  | Some u => if String_truthy u then u
              else lit "https://doc-zaddy.onrender.com"
  | None => lit "https://doc-zaddy.onrender.com"
  end.

(** In this copy the statement that sets the validation error is
    followed by the expression statement [s]; no scope of the module
    declares [s], so [global_s] is its binding in the global scope. *)
Definition handleDiagnose (REACT_APP_API_URL : option jsstring)
  (global_s : option value) (st : View) (net : settle Response)
  : Async unit :=
  setError (JStr (lit "")) ;;
  setResults (JArr []) ;;
  let tokens := tokenize (symptoms st) in
  if length tokens =? 0 then
    setError (JStr (lit "Please enter at least one symptom.")) ;;
    resolve_identifier (lit "s") global_s ;;
    ret tt
  else
    setLoading true ;;
    try_catch_finally
      (resp <- fetch (API_BASE REACT_APP_API_URL ++ lit "/api/diagnose")
                 {| method := lit "POST";
                    headers := [(lit "Content-Type", lit "application/json")];
                    body := JSON_stringify
                              (JObj [(lit "symptoms",
                                      JArr (map JStr tokens))]) |}
                 net ;;
       (if negb (ok resp) then
          p <- Response_text resp ;;
          txt <- await (Promise_catch p (fun _ => statusText resp)) ;;
          throw (ErrorObject "Error"
                   (lit "API error " ++ N_toString (status resp)
                    ++ lit ": " ++ txt))
        else ret tt) ;;
       p <- Response_json resp ;;
       data <- await p ;;
       r <- lift (Get data (lit "results")) ;;
       if ToBoolean r then
         r' <- lift (Get data (lit "results")) ;;
         setResults r'
       else
         m <- lift (Get data (lit "message")) ;;
         setError (logical_or m (JStr (lit "No results returned"))))
      (fun err =>
         console_error (lit "Diagnosis request failed:") err ;;
         setError (JStr (lit "Failed to fetch diagnosis. Please check API connection.")))
      (setLoading false).

End Configurable.

(* ===================================================================== *)
(** ** Rendering the confidence of a result entry *)
(* ===================================================================== *)

(** The Number of an integer literal. *)
Definition Number_of_Z (n : Z) : number :=
  binary_normalize 53 1024 n 0 false.

Definition zero : number := S754_zero false.
Definition one : number := Number_of_Z 1.
Definition hundred : number := Number_of_Z 100.

(** [x * y] on Numbers: the binary64 product, rounded to nearest, ties to
    even. *)
Definition Number_multiply (x y : number) : number := SFmul 53 1024 x y.

(** The integer a finite Number is, when it is one. *)
Definition integral_value (x : number) : option Z :=
  match x with
  | S754_zero _ => Some 0%Z
  | S754_finite s m (Zneg k) =>
      if (Zpos m mod 2 ^ Zpos k =? 0)%Z
      then Some (cond_Zopp s (Zpos m / 2 ^ Zpos k))
      else None
  | S754_finite s m e => Some (cond_Zopp s (Zpos m * 2 ^ e))
  | _ => None
  end.

(** [Math.round]: a Number that is not finite or is integral is returned
    as it is; otherwise the closest integer, the one towards +infinity on a
    tie, that is [floor (x + 1/2)]; a result of zero keeps the sign of
    [x]. A binary64 Number that is not integral is below 2^52 in
    magnitude, so the integer is a Number exactly. *)
Definition Math_round (x : number) : number :=
  match x with
  | S754_finite s m (Zneg k) =>
      if (Zpos m mod 2 ^ Zpos k =? 0)%Z then x
      else
        let n := ((2 * cond_Zopp s (Zpos m) + 2 ^ Zpos k)
                  / (2 * 2 ^ Zpos k))%Z in
        if (n =? 0)%Z then S754_zero s else Number_of_Z n
  | _ => x
  end.

Section Rendering.

(** Conversions of the language that are taken as they are:
    [StringToNumber] on strings, [ToNumber] on arrays and objects, and
    [Number::toString] on Numbers that are not integers below 2^53. *)
Variable StringToNumber : jsstring -> number.
Variable ObjectToNumber : value -> number.
Variable Number_toString_other : number -> jsstring.

Definition ToNumber (v : value) : number :=
  match v with
  | JUndefined => S754_nan
  | JNull => zero
  | JBool b => if b then Number_of_Z 1 else zero
  | JNum x => x
  | JStr s => StringToNumber s
  | JArr _ | JObj _ => ObjectToNumber v
  end.

(** [Number::toString]: an integer below 2^53 in magnitude is written
    with all its decimal digits (the integers next to it are Numbers
    too, so no shorter text reads back as it); from 2^53 on the digits
    are the shortest that read back as the Number, and those are left
    to [Number_toString_other]. *)
Definition Number_toString (x : number) : jsstring :=
  match x with
  | S754_nan => lit "NaN"
  | S754_infinity s => if s then lit "-Infinity" else lit "Infinity"
  | S754_zero _ => lit "0"
  | S754_finite s _ _ =>
      match integral_value x with
      | Some n =>
          if (Z.abs n <? 2 ^ 53)%Z
          then (if s then lit "-" else lit "") ++ N_toString (Z.abs_N n)
          else Number_toString_other x
      | None => Number_toString_other x
      end
  end.

(** The percentage of a result entry [r], as the list item writes it:
    [{Math.round((r.confidence || 0) * 100)}%]. *)
Definition confidence_percent (r : value) : thrown + jsstring :=
  match Get r (lit "confidence") with
  | inl e => inl e
  | inr c =>
      inr (Number_toString
             (Math_round
                (Number_multiply (ToNumber (logical_or c (JNum zero)))
                   hundred))
           ++ lit "%")
  end.

End Rendering.

(* ===================================================================== *)
(** ** Rounding half up, in the words of the specification *)
(* ===================================================================== *)

(** The rational a finite Number denotes. *)
Definition number_Q (x : number) : option Q :=
  match x with
  | S754_zero _ => Some 0%Q
  | S754_finite s m (Zneg k) => Some (Qmake (cond_Zopp s (Zpos m)) (2 ^ k))
  | S754_finite s m e => Some (inject_Z (cond_Zopp s (Zpos m * 2 ^ e)))
  | _ => None
  end.

(** [n] is [y] rounded to the nearest integer, halves going up. *)
Definition rounds_half_up (y : Q) (n : Z) : Prop :=
  (inject_Z n - (1 # 2) <= y /\ y < inject_Z n + (1 # 2))%Q.

(** A well-formed Number between 0 and 1. *)
Definition in_unit_interval (x : number) : bool :=
  valid_binary 53 1024 x && SFleb zero x && SFleb x one.

(** The confidence field of an entry of the wire contract: absent, or a
    number between 0 and 1. *)
Inductive contract_confidence : value -> Prop :=
| confidence_absent : contract_confidence JUndefined
| confidence_number (x : number) :
    in_unit_interval x = true -> contract_confidence (JNum x).

(** The percentage the specification gives for the confidence field [c] of
    an entry: 0 when the field is absent, and the confidence times 100,
    rounded half up, when it is a number. *)
Inductive spec_percent : value -> Z -> Prop :=
| percent_absent : spec_percent JUndefined 0
| percent_number (x : number) (q : Q) (n : Z) :
    number_Q x = Some q ->
    rounds_half_up (q * 100)%Q n ->
    spec_percent (JNum x) n.

(** The same with the product of binary64 arithmetic in the place of the
    exact one: the product of the confidence with 100 is rounded to the
    nearest Number first, and that Number is rounded half up. *)
Inductive binary64_percent : value -> Z -> Prop :=
| product_absent : binary64_percent JUndefined 0
| product_number (x : number) (y : Q) (n : Z) :
    number_Q (Number_multiply x hundred) = Some y ->
    rounds_half_up y n ->
    binary64_percent (JNum x) n.

(** [n] is the confidence times 100 rounded half up, or the exact product
    is within 2^-45 of the half between [n] and the integer next to it;
    0 when the field is absent. *)
Inductive near_percent : value -> Z -> Prop :=
| near_absent : near_percent JUndefined 0
| near_number (x : number) (q : Q) (n : Z) :
    number_Q x = Some q ->
    (inject_Z n - (1 # 2) - (1 # 2 ^ 45) <= q * 100)%Q ->
    (q * 100 < inject_Z n + (1 # 2) + (1 # 2 ^ 45))%Q ->
    near_percent (JNum x) n.

(** An integer in decimal. *)
Definition Z_toString (n : Z) : jsstring :=
  (if (n <? 0)%Z then lit "-" else lit "") ++ N_toString (Z.abs_N n).

(* ===================================================================== *)
(** ** Vocabulary of the statements about a Submit *)
(* ===================================================================== *)

Definition is_fetch (ev : event) : bool :=
  match ev with
  | FetchCall _ _ => true
  | _ => false
  end.

(** The network call has been issued somewhere in [tr]. *)
Definition call_issued (tr : list event) : bool := existsb is_fetch tr.

(** The events of a trace that are not the network call. *)
Definition other_events (tr : list event) : list event :=
  filter (fun ev => negb (is_fetch ev)) tr.

(** The request of the wire contract for a token list: method POST, a JSON
    content type, and the JSON object with the one field [symptoms]. *)
Definition spec_request (tokens : list jsstring) : RequestInit :=
  {| method := lit "POST";
     headers := [(lit "Content-Type", lit "application/json")];
     body := JSON_stringify (JObj [(lit "symptoms", JArr (map JStr tokens))]) |}.

(** The failures of a request, with what is thrown inside the [try]
    block: the call itself fails; the status is not a success status (the
    body is read as text, the status text standing in when it cannot be
    read); the body of a success response does not parse. *)
Inductive request_fails : settle Response -> thrown -> Prop :=
| network_failure (e : thrown) :
    request_fails (Rejected e) e
| status_failure (resp : Response) (txt : jsstring) :
    ok resp = false -> text resp = Fulfilled txt ->
    request_fails (Fulfilled resp)
      (ErrorObject "Error"
         (lit "API error " ++ N_toString (status resp) ++ lit ": " ++ txt))
| status_failure_unread (resp : Response) (e : thrown) :
    ok resp = false -> text resp = Rejected e ->
    request_fails (Fulfilled resp)
      (ErrorObject "Error"
         (lit "API error " ++ N_toString (status resp) ++ lit ": "
          ++ statusText resp))
| parse_failure (resp : Response) (e : thrown) :
    ok resp = true -> json resp = Rejected e ->
    request_fails (Fulfilled resp) e.

(** Sample views and responses for the examples: a view whose input is
    [input], with an error and a result left by an earlier Submit; a
    success response whose body parses to [v]; a response with another
    status whose body reads as [txt]. *)
Definition view_with (input : string) : View :=
  {| symptoms := lit input; results := JArr [JStr (lit "stale")];
     loading := false; error := JStr (lit "stale") |}.

Definition json_response (v : value) : Response :=
  {| status := 200; statusText := lit "OK";
     text := Rejected (ErrorObject "TypeError" (lit "body stream already read"));
     json := Fulfilled v |}.

Definition status_response (code : N) (reason txt : string) : Response :=
  {| status := code; statusText := lit reason; text := Fulfilled (lit txt);
     json := Rejected (ErrorObject "SyntaxError" (lit "Unexpected token")) |}.

(** The binary64 Numbers nearest to 0.666, to 0.67 and to 0.015. *)
Definition n0_666 : number := S754_finite false 5998794703657501 (-53).
Definition n0_67 : number := S754_finite false 6034823500676465 (-53).
Definition n0_015 : number := S754_finite false 8646911284551352 (-59).

(** The result entry of the sample response of the specification. *)
Definition common_cold : value :=
  JObj [(lit "disease", JStr (lit "common_cold"));
        (lit "matched", JNum (Number_of_Z 2));
        (lit "total", JNum (Number_of_Z 3));
        (lit "confidence", JNum n0_67)].

(** Literals, the status test and the token expression stay folded when a
    run of the handler is simplified. *)
Arguments lit : simpl never.
Arguments ok : simpl never.
Arguments N_toString : simpl never.
Arguments tokenize : simpl never.

Definition is_settled {A : Type} (p : settle A) : bool :=
  match p with
  | NeverSettles => false
  | _ => true
  end.

(** The request comes to an end: the call settles, and when it gives a
    response the read of the body that the handler awaits settles too,
    as text when the status is not a success status and as JSON when it
    is. *)
Definition request_settles (net : settle Response) : bool :=
  match net with
  | Fulfilled resp =>
      if ok resp then is_settled (json resp) else is_settled (text resp)
  | Rejected _ => true
  | NeverSettles => false
  end.

(** Loading over a run that started from the view [st], for a request
    that ends as [net] says: the call is issued; from then on, at every
    point before the last step of the run, loading is true; when the
    request comes to an end the run returns, its last step sets loading
    to false, and loading is false in the view it leaves; when the request
    does not come to an end the run stays suspended with loading true. *)
Definition loading_while_in_flight (st : View) (net : settle Response)
  (run : Async unit) : Prop :=
  call_issued (trace run) = true
  /\ (forall tr1 tr2,
        trace run = tr1 ++ tr2 -> call_issued tr1 = true -> tr2 <> [] ->
        loading (replay st tr1) = true)
  /\ (request_settles net = true ->
      outcome run = Normal tt
      /\ hd_error (rev (trace run)) = Some (SetLoading false)
      /\ loading (final_view st run) = false)
  /\ (request_settles net = false ->
      outcome run = Suspended
      /\ loading (final_view st run) = true).

(** The view a failed request leaves. *)
Definition failure_view (st : View) : View :=
  {| symptoms := symptoms st; results := JArr []; loading := false;
     error := JStr (lit "Failed to fetch diagnosis. Please check API connection.") |}.

(* ===================================================================== *)
(** ** More vocabulary: body reads, console writes, bodies, views *)
(* ===================================================================== *)

Definition is_body_read (ev : event) : bool :=
  match ev with
  | ReadText | ReadJson => true
  | _ => false
  end.

(** The reads of the response body in a trace. *)
Definition body_reads (tr : list event) : list event :=
  filter is_body_read tr.

Definition is_console_write (ev : event) : bool :=
  match ev with
  | ConsoleError _ _ => true
  | _ => false
  end.

(** The writes to the console in a trace. *)
Definition console_writes (tr : list event) : list event :=
  filter is_console_write tr.

Definition is_loading_update (ev : event) : bool :=
  match ev with
  | SetLoading _ => true
  | _ => false
  end.

(** A parsed body that is an object, and one that is null or undefined. *)
Definition is_object (v : value) : bool :=
  match v with
  | JObj _ => true
  | _ => false
  end.

Definition is_nullish (v : value) : bool :=
  match v with
  | JUndefined | JNull => true
  | _ => false
  end.

(** The view a rejected input leaves: the validation message, no result,
    and loading as it was. *)
Definition validation_view (st : View) : View :=
  {| symptoms := symptoms st; results := JArr []; loading := loading st;
     error := JStr (lit "Please enter at least one symptom.") |}.

(** The view an answer without results and without a message leaves. *)
Definition no_results_view (st : View) : View :=
  {| symptoms := symptoms st; results := JArr []; loading := false;
     error := JStr (lit "No results returned") |}.

(** The first view of the page with an input typed in. *)
Definition initial_view_fever : View :=
  {| symptoms := lit "fever"; results := JArr []; loading := false;
     error := JStr (lit "") |}.

(* ===================================================================== *)
(** ** [String.prototype.replace] with a global regular expression *)
(* ===================================================================== *)

(** The search of [exec] for an expression that is not sticky: the first
    position from [i] on, the end of the string included, at which the
    expression matches, with the length of the match. [s] is the string
    from position [i] on. *)
Fixpoint search (R : regex) (s : jsstring) (i : nat) : option (nat * nat) :=
  match match_length R s with
  | Some len => Some (i, len)
  | None =>
      match s with
      | [] => None
      | _ :: s' => search R s' (S i)
      end
  end.

(** [exec] from [lastIndex]: no match when [lastIndex] is past the end. *)
Definition RegExp_exec (R : regex) (str : jsstring) (lastIndex : nat)
  : option (nat * nat) :=
  if length str <? lastIndex then None
  else search R (skipn lastIndex str) lastIndex.

(** Matching on a value while keeping the equation that names it. *)
Definition inspect {A : Type} (x : A) : {y : A | x = y} :=
  exist _ x eq_refl.

(** The matches a global expression has in [str], as the loop of
    [RegExp.prototype[@@replace]] collects them: after a match the search
    goes on from its end, and one position further when the match is
    empty. *)
Equations? collect_matches (R : regex) (str : jsstring) (lastIndex : nat)
  : list (nat * nat) by wf (length str + 1 - lastIndex) lt :=
collect_matches R str lastIndex with inspect (RegExp_exec R str lastIndex) := {
  | exist _ None _ => []
  | exist _ (Some (pos, len)) Hexec =>
      (pos, len)
      :: collect_matches R str (if len =? 0 then pos + len + 1 else pos + len) }.
Proof.
  unfold RegExp_exec in Hexec.
  destruct (Nat.ltb_spec (length str) lastIndex) as [Hlt|Hle];
    [discriminate Hexec|].
  assert (Hpos : forall s i, search R s i = Some (pos, len) -> i <= pos).
  { induction s as [|c s IH]; intros i Hs; cbn [search] in Hs;
      destruct (match_length R _).
    - injection Hs as -> _. lia.
    - discriminate Hs.
    - injection Hs as -> _. lia.
    - apply IH in Hs. lia. }
  apply Hpos in Hexec.
  destruct (len =? 0) eqn:Hlen.
  - lia.
  - apply Nat.eqb_neq in Hlen. lia.
Qed.

(** The result of the replacement is put together from the matches:
    [acc] is the text so far and [next] the position in [str] it stands
    for; [substitution matched pos] is the text put in the place of the
    match [matched] at [pos]. *)
Fixpoint build_replacement (str : jsstring)
  (substitution : jsstring -> nat -> jsstring)
  (matches : list (nat * nat)) (acc : jsstring) (next : nat) : jsstring :=
  match matches with
  | [] =>
      if length str <=? next then acc
      else acc ++ substring str next (length str)
  | (pos, len) :: rest =>
      if next <=? pos
      then build_replacement str substitution rest
             (acc ++ substring str next pos
              ++ substitution (substring str pos (pos + len)) pos)
             (pos + len)
      else build_replacement str substitution rest acc next
  end.

(** [GetSubstitution] for a replacement text that holds no dollar sign:
    the text, whatever was matched. *)
Definition plain_substitution (replacement : jsstring)
  : jsstring -> nat -> jsstring :=
  fun _ _ => replacement.

(** [str.replace(R, replacement)] for a global [R] and a replacement text
    without dollar signs. *)
Definition String_replace_global (R : regex) (replacement str : jsstring)
  : jsstring :=
  build_replacement str (plain_substitution replacement)
    (collect_matches R str 0) [] 0.

(** The offset of the first code unit of [s] that [p] holds of. *)
Fixpoint first_index (p : code_unit -> bool) (s : jsstring) : option nat :=
  match s with
  | [] => None
  | c :: s' =>
      if p c then Some 0
      else match first_index p s' with
           | Some k => Some (S k)
           | None => None
           end
  end.

Definition underscore : code_unit := 95%N.
Definition space : code_unit := 32%N.
Definition is_underscore (c : code_unit) : bool := (c =? underscore)%N.

(** The expression [/_/g] of the list item. *)
Definition underscore_regex : regex := Class is_underscore.

(* ===================================================================== *)
(** ** What [App] returns: the page for a state *)
(* ===================================================================== *)

Section Page.

Variable StringToNumber : jsstring -> number.
Variable ObjectToNumber : value -> number.
Variable Number_toString_other : number -> jsstring.

(** [v.length]: a string has the number of its code units, an array the
    number of its items; on any other value the key is read as any other
    key is. *)
Definition Get_length (v : value) : thrown + value :=
  match v with
  | JStr s => inr (JNum (Number_of_Z (Z.of_nat (length s))))
  | JArr items => inr (JNum (Number_of_Z (Z.of_nat (length items))))
  | _ => Get v (lit "length")
  end.

(** [x > 0]: the operand becomes a Number; NaN is above nothing. *)
Definition greater_than_zero (x : value) : bool :=
  SFltb zero (ToNumber StringToNumber ObjectToNumber x).

(** [d.replace(/_/g, " ")]: only a string has the method. Reading it from
    undefined or null throws, and calling what another value has under
    that key throws too (the messages are the engine's). *)
Definition call_replace (d : value) : thrown + jsstring :=
  match d with
  | JStr s => inr (String_replace_global underscore_regex (lit " ") s)
  | _ =>
      match Get d (lit "replace") with
      | inl e => inl e
      | inr _ =>
          inl (ErrorObject "TypeError"
                 (lit "r.disease.replace is not a function"))
      end
  end.

(** One list item: its key, the name in bold, and the children of the
    line [Match: {r.matched}/{r.total} ({...}%)]. *)
Record entry_item : Type := {
  item_key : nat;
  item_label : jsstring;
  item_matched : value;
  item_total : value;
  item_percent : jsstring
}.

(** The callback of [results.map]: [(r, i) => <li key={i}>...</li>]. The
    expressions are evaluated from left to right. *)
Definition render_entry (r : value) (i : nat) : thrown + entry_item :=
  match Get r (lit "disease") with
  | inl e => inl e
  | inr d =>
      match call_replace d with
      | inl e => inl e
      | inr label =>
          match Get r (lit "matched") with
          | inl e => inl e
          | inr m =>
              match Get r (lit "total") with
              | inl e => inl e
              | inr t =>
                  match confidence_percent StringToNumber ObjectToNumber
                          Number_toString_other r with
                  | inl e => inl e
                  | inr pct =>
                      inr {| item_key := i; item_label := label;
                             item_matched := m; item_total := t;
                             item_percent := pct |}
                  end
              end
          end
      end
  end.

(** What a list item shows of the entry [r] it was made from. *)
Definition shows (r : value) (it : entry_item) : Prop :=
  exists d,
    Get r (lit "disease") = inr (JStr d)
    /\ item_label it = map (fun c => if is_underscore c then space else c) d
    /\ Get r (lit "matched") = inr (item_matched it)
    /\ Get r (lit "total") = inr (item_total it)
    /\ confidence_percent StringToNumber ObjectToNumber
         Number_toString_other r
       = inr (item_percent it).

(** [Array.prototype.map] from index [i] on: the callback is called on the
    items in order with their indices, and the first throw ends the call. *)
Fixpoint Array_map {B : Type} (callback : value -> nat -> thrown + B)
  (items : list value) (i : nat) : thrown + list B :=
  match items with
  | [] => inr []
  | r :: rest =>
      match callback r i with
      | inl e => inl e
      | inr b =>
          match Array_map callback rest (S i) with
          | inl e => inl e
          | inr bs => inr (b :: bs)
          end
      end
  end.

(** [{error && <p>{error}</p>}]: the paragraph with the error as its
    child, or the falsy error itself. *)
Inductive error_region : Type :=
| ErrorParagraph (child : value)
| ErrorValue (v : value).

Definition render_error (error : value) : error_region :=
  if ToBoolean error then ErrorParagraph error else ErrorValue error.

(** [{results.length > 0 && (... <ul>{results.map(...)}</ul> ...)}]: the
    list under its heading, or [false]. Only an array has [map]. *)
Inductive results_region : Type :=
| ResultsList (items : list entry_item)
| ResultsHidden.

Definition render_results (results : value) : thrown + results_region :=
  match Get_length results with
  | inl e => inl e
  | inr len =>
      if greater_than_zero len then
        match results with
        | JArr items =>
            match Array_map render_entry items 0 with
            | inl e => inl e
            | inr shown => inr (ResultsList shown)
            end
        | _ =>
            inl (ErrorObject "TypeError" (lit "results.map is not a function"))
        end
      else inr ResultsHidden
  end.

(** The parts of the page that depend on the state. *)
Record screen : Type := {
  textarea_value : jsstring;
  button_disabled : bool;
  button_label : jsstring;
  error_part : error_region;
  results_part : results_region
}.

(** The value [App] returns in the state [st], or what it throws. *)
Definition App (st : View) : thrown + screen :=
  match render_results (results st) with
  | inl e => inl e
  | inr part =>
      inr {| textarea_value := symptoms st;
             button_disabled := loading st;
             button_label :=
               if loading st then lit "Analyzing..." else lit "Diagnose";
             error_part := render_error (error st);
             results_part := part |}
  end.

End Page.

(** ** Vocabulary of the statements about the page *)

(** The name a list item shows for a disease. *)
Definition spaced (s : jsstring) : jsstring :=
  map (fun c => if is_underscore c then space else c) s.

(** Whether the entry has a string under [disease]. *)
Definition named (r : value) : bool :=
  match Get r (lit "disease") with
  | inr (JStr _) => true
  | _ => false
  end.

(** A child that React writes as text (a string, a number) or leaves out
    (undefined, null, a boolean): a value that is no array and no object.
    An object as a child makes React throw. *)
Definition is_primitive (v : value) : bool :=
  match v with
  | JArr _ | JObj _ => false
  | _ => true
  end.



(** A value that has no [length]: a boolean, a number, or an object
    without the key. *)
Definition lengthless (v : value) : bool :=
  match v with
  | JBool _ | JNum _ => true
  | JObj fields =>
      match own_property (lit "length") fields with
      | None => true
      | Some _ => false
      end
  | _ => false
  end.

(** The page after an answer: the input, the button enabled, no message,
    and [part] under it. *)
Definition answer_screen (st : View) (part : results_region) : screen :=
  {| textarea_value := symptoms st; button_disabled := false;
     button_label := lit "Diagnose"; error_part := ErrorValue (JStr (lit ""));
     results_part := part |}.

(** The page that shows the error of the view [v] and no list. *)
Definition message_screen (v : View) : screen :=
  {| textarea_value := symptoms v; button_disabled := loading v;
     button_label := if loading v then lit "Analyzing..." else lit "Diagnose";
     error_part := ErrorParagraph (error v);
     results_part := ResultsHidden |}.

(** The conversions left open, chosen for the examples. *)
Definition no_number : jsstring -> number := fun _ => S754_nan.
Definition no_object_number : value -> number := fun _ => S754_nan.
Definition no_other_digits : number -> jsstring := fun _ => lit "".

(** A response whose message is a number. *)
Definition numeric_message : value :=
  JObj [(lit "message", JNum (Number_of_Z 7))].

(** An entry of the sample response without its [disease]. *)
Definition nameless : value :=
  JObj [(lit "matched", JNum (Number_of_Z 2));
        (lit "total", JNum (Number_of_Z 3))].

(* ##################################################################### *)
(** * Theorems *)
(* ##################################################################### *)

(* ===================================================================== *)
(** ** The matcher on the separator expression *)
(* ===================================================================== *)

Example tokenize_example :
  tokenize (lit "fever, cough   headache")
  = [lit "fever"; lit "cough"; lit "headache"].
Proof. vm_compute. reflexivity. Qed.

Lemma repeat_star_class (c : code_unit -> bool) (n : nat) :
  forall s, length s <= n ->
  repeat_star (rmatch (Class c)) Some n s = Some (drop_while c s).
Proof.
  induction n as [|n IH]; intros s Hn.
  - destruct s; [reflexivity | simpl in Hn; lia].
  - destruct s as [|y s']; [reflexivity|].
    cbn [repeat_star rmatch drop_while].
    destruct (c y); [|reflexivity].
    replace (length s' <? length (y :: s')) with true
      by (symmetry; apply Nat.ltb_lt; simpl; lia).
    rewrite IH by (simpl in Hn; lia). reflexivity.
Qed.

Lemma rmatch_plus_class (c : code_unit -> bool) (s : jsstring) :
  rmatch (Plus (Class c)) s Some
  = match s with
    | x :: s' => if c x then Some (drop_while c s') else None
    | [] => None
    end.
Proof.
  destruct s as [|x s']; [reflexivity|].
  cbn [rmatch]. destruct (c x); [|reflexivity].
  apply repeat_star_class. simpl. lia.
Qed.

Lemma class_s_not_comma (c : code_unit) : class_s c = true -> is_comma c = false.
Proof.
  unfold class_s, is_white_space, is_line_terminator, is_comma, comma.
  intros H. apply N.eqb_neq. intros ->. discriminate H.
Qed.

Lemma rmatch_separator (s : jsstring) :
  rmatch separator_regex s Some
  = match s with
    | [] => None
    | c :: s' =>
        match classify c with
        | Some k => Some (drop_while (in_kind k) s')
        | None => None
        end
    end.
Proof.
  unfold separator_regex.
  change (rmatch (Alt ?a ?b) s Some)
    with (match rmatch a s Some with
          | Some z => Some z
          | None => rmatch b s Some
          end).
  rewrite !rmatch_plus_class.
  destruct s as [|c s']; [reflexivity|].
  unfold classify. destruct (class_s c); [reflexivity|].
  destruct (is_comma c); reflexivity.
Qed.

Lemma drop_while_length (f : code_unit -> bool) (s : jsstring) :
  length (drop_while f s) <= length s.
Proof.
  induction s as [|c s IH]; simpl; [lia|].
  destruct (f c); simpl; lia.
Qed.

Lemma skipn_drop_while (f : code_unit -> bool) (s : jsstring) :
  skipn (length s - length (drop_while f s)) s = drop_while f s.
Proof.
  induction s as [|c s IH]; [reflexivity|].
  simpl drop_while. destruct (f c).
  - pose proof (drop_while_length f s).
    change (length (c :: s)) with (S (length s)).
    rewrite Nat.sub_succ_l by assumption.
    simpl. exact IH.
  - rewrite Nat.sub_diag. reflexivity.
Qed.

(* ===================================================================== *)
(** ** The split loop computes the pieces between separator runs *)
(* ===================================================================== *)

Lemma skipn_step (str : jsstring) (q : nat) :
  q < length str -> exists c, skipn q str = c :: skipn (q + 1) str.
Proof.
  revert q. induction str as [|a str IH]; intros q Hq; [simpl in Hq; lia|].
  destruct q as [|q].
  - exists a. reflexivity.
  - simpl in Hq. destruct (IH q ltac:(lia)) as [c Hc].
    exists c. simpl. exact Hc.
Qed.

Lemma firstn_snoc (l : jsstring) (n : nat) (c : code_unit) (rest : jsstring) :
  skipn n l = c :: rest -> firstn (n + 1) l = firstn n l ++ [c].
Proof.
  revert l. induction n as [|n IH]; intros l H.
  - simpl in H. subst l. reflexivity.
  - destruct l as [|a l]; [discriminate H|].
    simpl in *. f_equal. apply IH. exact H.
Qed.

Lemma substring_snoc (str : jsstring) (p q : nat) (c : code_unit)
  (rest : jsstring) :
  p <= q -> skipn q str = c :: rest ->
  substring str p (q + 1) = substring str p q ++ [c].
Proof.
  intros Hpq H. unfold substring.
  replace (q + 1 - p) with ((q - p) + 1) by lia.
  apply firstn_snoc with (rest := rest).
  rewrite skipn_skipn. replace (q - p + p) with q by lia. exact H.
Qed.

Lemma substring_empty (str : jsstring) (e : nat) : substring str e e = [].
Proof. unfold substring. rewrite Nat.sub_diag. reflexivity. Qed.

Lemma classify_in_kind (k : run_kind) (c : code_unit) :
  in_kind k c
  = match classify c with
    | Some k' => continues (Some k) k'
    | None => false
    end.
Proof.
  unfold classify.
  destruct (class_s c) eqn:Hs.
  - destruct k; simpl; [exact Hs | apply class_s_not_comma; exact Hs].
  - destruct (is_comma c) eqn:Hc; destruct k; simpl; assumption.
Qed.

Lemma spec_pieces_run (k : run_kind) (s : jsstring) :
  spec_pieces (Some k) [] s = spec_pieces None [] (drop_while (in_kind k) s).
Proof.
  induction s as [|c s IH]; [reflexivity|].
  cbn [drop_while spec_pieces].
  rewrite classify_in_kind.
  destruct (classify c) as [k'|] eqn:Hc.
  - destruct (continues (Some k) k') eqn:Hk.
    + exact IH.
    + cbn [spec_pieces]. rewrite Hc. reflexivity.
  - cbn [spec_pieces]. rewrite Hc. reflexivity.
Qed.

Lemma split_loop_step (R : regex) (str : jsstring) (p q : nat)
  (A : list jsstring) :
  split_loop R str p q A
  = if lt_dec q (length str) then
      match match_length R (skipn q str) with
      | None => split_loop R str p (q + 1) A
      | Some len =>
          let e := Nat.min (q + len) (length str) in
          if Nat.eq_dec e p then split_loop R str p (q + 1) A
          else split_loop R str e e (A ++ [substring str p q])
      end
    else A ++ [substring str p (length str)].
Proof.
  rewrite split_loop_equation_1.
  destruct (lt_dec q (length str)).
  - rewrite split_loop_clause_1_equation_1.
    destruct (match_length R (skipn q str)).
    + rewrite split_loop_clause_1_clause_2_equation_1. cbv zeta.
      destruct (Nat.eq_dec _ p).
      * apply split_loop_clause_1_clause_2_clause_2_equation_1.
      * apply split_loop_clause_1_clause_2_clause_2_equation_2.
    + apply split_loop_clause_1_clause_2_equation_2.
  - apply split_loop_clause_1_equation_2.
Qed.

Lemma split_loop_pieces (str : jsstring) (n : nat) :
  forall p q A,
    length str - q <= n -> p <= q -> q <= length str ->
    split_loop separator_regex str p q A
    = A ++ spec_pieces None (substring str p q) (skipn q str).
Proof.
  induction n as [n IH] using lt_wf_ind. intros p q A Hn Hpq Hq.
  rewrite split_loop_step.
  destruct (lt_dec q (length str)) as [Hlt|Hge].
  - destruct (skipn_step str Hlt) as [c Hc].
    unfold match_length. rewrite rmatch_separator, Hc.
    destruct (classify c) as [k|] eqn:Hk.
    + pose proof (drop_while_length (in_kind k) (skipn (q + 1) str)) as Hd.
      assert (Hlen : length (c :: skipn (q + 1) str) = length str - q)
        by (rewrite <- Hc; apply length_skipn).
      cbv zeta.
      set (len := length (c :: skipn (q + 1) str)
                  - length (drop_while (in_kind k) (skipn (q + 1) str))).
      assert (Hlen' : 1 <= len <= length str - q)
        by (subst len; simpl length in *; lia).
      replace (Nat.min (q + len) (length str)) with (q + len) by lia.
      destruct (Nat.eq_dec (q + len) p) as [Heq|Hne]; [lia|].
      rewrite (IH (length str - (q + len))) by lia.
      rewrite substring_empty, <- app_assoc. cbn [app]. f_equal.
      cbn [spec_pieces]. rewrite Hk. cbn [continues]. f_equal.
      rewrite spec_pieces_run. f_equal.
      rewrite Nat.add_comm, <- skipn_skipn, Hc.
      subst len. cbn [length].
      rewrite Nat.sub_succ_l by exact Hd.
      cbn [skipn]. apply skipn_drop_while.
    + rewrite (IH (length str - (q + 1))) by lia.
      rewrite (substring_snoc str Hpq Hc).
      cbn [spec_pieces]. rewrite Hk. reflexivity.
  - assert (q = length str) by lia. subst q.
    rewrite skipn_all. reflexivity.
Qed.

(** [split] on the separator expression is the split on runs. *)
Lemma String_split_spec (s : jsstring) :
  String_split separator_regex s = spec_split s.
Proof.
  destruct s as [|c s]; [reflexivity|].
  unfold String_split, spec_split.
  rewrite (@split_loop_pieces (c :: s) (length (c :: s))) by lia.
  reflexivity.
Qed.

(* ===================================================================== *)
(** ** Trimming, and tokens as maximal runs *)
(* ===================================================================== *)

Lemma drop_while_snoc (f : code_unit -> bool) (l : jsstring) (c : code_unit) :
  drop_while f (l ++ [c])
  = match drop_while f l with
    | [] => if f c then [] else [c]
    | d => d ++ [c]
    end.
Proof.
  induction l as [|a l IH]; [reflexivity|].
  simpl. destruct (f a); [exact IH | reflexivity].
Qed.

Lemma drop_trailing_rev (s : jsstring) :
  rev (drop_while class_s (rev s)) = drop_trailing s.
Proof.
  induction s as [|c s IH]; [reflexivity|].
  cbn [rev drop_trailing]. rewrite drop_while_snoc, <- IH.
  destruct (drop_while class_s (rev s)) as [|d ds] eqn:Hd.
  - cbn [rev]. destruct (class_s c); reflexivity.
  - rewrite rev_app_distr. cbn [rev app].
    destruct (rev ds ++ [d]) eqn:Hr; [|reflexivity].
    apply app_eq_nil in Hr. destruct Hr as [_ Hr]. discriminate Hr.
Qed.

Lemma String_trim_spec (s : jsstring) : String_trim s = spec_trim s.
Proof. unfold String_trim, spec_trim. apply drop_trailing_rev. Qed.

Lemma String_truthy_spec (s : jsstring) : String_truthy s = spec_nonempty s.
Proof. destruct s; reflexivity. Qed.

Lemma classify_separator (c : code_unit) :
  is_separator c = match classify c with Some _ => true | None => false end.
Proof.
  unfold is_separator, classify.
  destruct (class_s c); [reflexivity|]. destruct (is_comma c); reflexivity.
Qed.

Lemma clean_snoc (t : jsstring) (c : code_unit) :
  clean t = true -> is_separator c = false -> clean (t ++ [c]) = true.
Proof.
  intros Ht Hc. unfold clean in *. rewrite forallb_app, Ht. simpl.
  rewrite Hc. reflexivity.
Qed.

Lemma clean_app (t u : jsstring) :
  clean (t ++ u) = clean t && clean u.
Proof. apply forallb_app. Qed.

Lemma drop_trailing_clean (t : jsstring) :
  clean t = true -> drop_trailing t = t.
Proof.
  induction t as [|c t IH]; [reflexivity|].
  intros H. simpl in H. apply andb_prop in H. destruct H as [Hc Ht].
  cbn [drop_trailing]. rewrite (IH Ht).
  destruct t; [|reflexivity].
  unfold is_separator in Hc. destruct (class_s c); [discriminate Hc|reflexivity].
Qed.

Lemma String_trim_clean (t : jsstring) :
  clean t = true -> String_trim t = t.
Proof.
  intros H. rewrite String_trim_spec. unfold spec_trim.
  replace (drop_while class_s t) with t.
  - apply drop_trailing_clean. exact H.
  - destruct t as [|c t]; [reflexivity|].
    simpl in H. apply andb_prop in H. destruct H as [Hc _].
    unfold is_separator in Hc. simpl.
    destruct (class_s c); [discriminate Hc|reflexivity].
Qed.

Lemma pieces_words (s : jsstring) :
  forall run cur,
    clean cur = true ->
    (run = None \/ cur = []) ->
    filter String_truthy (map String_trim (spec_pieces run cur s))
    = words cur s.
Proof.
  induction s as [|c s IH]; intros run cur Hcur Hrun.
  - cbn [spec_pieces map filter words]. rewrite (String_trim_clean _ Hcur).
    unfold close_token. destruct (String_truthy cur); reflexivity.
  - cbn [spec_pieces words]. rewrite classify_separator.
    destruct (classify c) as [k|] eqn:Hk.
    + destruct (continues run k) eqn:Hrk.
      * destruct Hrun as [-> | ->]; [destruct k; discriminate Hrk|].
        rewrite IH by auto. reflexivity.
      * cbn [map filter]. rewrite (String_trim_clean _ Hcur).
        rewrite IH by auto. unfold close_token.
        destruct (String_truthy cur); reflexivity.
    + apply IH; [|left; reflexivity].
      apply clean_snoc; [exact Hcur|].
      rewrite classify_separator, Hk. reflexivity.
Qed.

Lemma tokenize_words (s : jsstring) : tokenize s = words [] s.
Proof.
  unfold tokenize. rewrite String_split_spec.
  apply pieces_words; [reflexivity | left; reflexivity].
Qed.

Lemma words_concat (s : jsstring) :
  forall cur,
    concat (words cur s)
    = cur ++ filter (fun c => negb (is_separator c)) s.
Proof.
  assert (He : forall cur, concat (close_token cur) = cur).
  { intros [|a cur]; [reflexivity|]. unfold close_token. simpl.
    rewrite app_nil_r. reflexivity. }
  induction s as [|c s IH]; intros cur; cbn [words filter].
  - rewrite app_nil_r. apply He.
  - destruct (is_separator c); cbn [negb].
    + rewrite concat_app, He, IH. reflexivity.
    + rewrite IH, <- app_assoc. reflexivity.
Qed.

Lemma words_clean_prefix (t : jsstring) :
  forall cur s, clean t = true -> words cur (t ++ s) = words (cur ++ t) s.
Proof.
  induction t as [|c t IH]; intros cur s H.
  - rewrite app_nil_r. reflexivity.
  - simpl in H. apply andb_prop in H. destruct H as [Hc Ht].
    apply negb_true_iff in Hc. cbn [app words]. rewrite Hc.
    rewrite IH by exact Ht. rewrite <- app_assoc. reflexivity.
Qed.

Lemma words_separator (cur a b : jsstring) (c : code_unit) :
  is_separator c = true ->
  words cur (a ++ c :: b) = words cur a ++ words [] b.
Proof.
  intros Hc. revert cur. induction a as [|x a IH]; intros cur; cbn [app words].
  - rewrite Hc. reflexivity.
  - destruct (is_separator x); [|apply IH].
    rewrite IH, app_assoc. reflexivity.
Qed.

Lemma words_token_ok (s : jsstring) :
  forall cur, clean cur = true -> Forall token_ok (words cur s).
Proof.
  assert (He : forall cur, clean cur = true -> Forall token_ok (close_token cur)).
  { intros [|a cur] H; [constructor|]. unfold close_token. simpl.
    constructor; [|constructor]. split; [discriminate | exact H]. }
  induction s as [|c s IH]; intros cur H; cbn [words].
  - apply He, H.
  - destruct (is_separator c) eqn:Hc.
    + apply Forall_app. split; [apply He, H | apply IH; reflexivity].
    + apply IH, clean_snoc; assumption.
Qed.

Lemma words_token (t : jsstring) : token_ok t -> words [] t = [t].
Proof.
  intros [Hne Hc].
  rewrite <- (app_nil_r t) at 1. rewrite words_clean_prefix by exact Hc.
  cbn [app words]. unfold close_token. destruct t; [contradiction|reflexivity].
Qed.

Lemma words_join (c : code_unit) (l : list jsstring) :
  is_separator c = true -> Forall token_ok l ->
  words [] (Array_join [c] l) = l.
Proof.
  intros Hc Hl. induction Hl as [|t l Ht Hl IH]; [reflexivity|].
  cbn [Array_join]. destruct l as [|u l].
  - apply words_token, Ht.
  - cbn [app]. rewrite words_separator by exact Hc.
    rewrite IH, (words_token Ht). reflexivity.
Qed.

(* ===================================================================== *)
(** ** Tokenization against its reference definition *)
(* ===================================================================== *)

Lemma tokenize_spec (s : jsstring) : tokenize s = spec_tokenize s.
Proof.
  unfold tokenize, spec_tokenize. rewrite String_split_spec.
  rewrite (map_ext _ _ String_trim_spec).
  apply filter_ext. exact String_truthy_spec.
Qed.

Lemma tokenize_token_ok (s : jsstring) : Forall token_ok (tokenize s).
Proof. rewrite tokenize_words. apply words_token_ok. reflexivity. Qed.

Lemma tokenize_join (c : code_unit) (s : jsstring) :
  is_separator c = true ->
  tokenize (Array_join [c] (tokenize s)) = tokenize s.
Proof.
  intros Hc. rewrite (tokenize_words (Array_join _ _)).
  apply words_join; [exact Hc | apply tokenize_token_ok].
Qed.

Lemma tokenize_append (c : code_unit) (a b : jsstring) :
  is_separator c = true ->
  tokenize (a ++ c :: b) = tokenize a ++ tokenize b.
Proof.
  intros Hc. rewrite !tokenize_words. apply words_separator. exact Hc.
Qed.

(** C3. The token expression of [handleDiagnose] computes the reference
    tokenizer: split on runs of whitespace or runs of commas, trim each
    piece, drop the empty pieces. It keeps the order of the input: the
    tokens, concatenated, are the code units of the input that are not
    separators, in their order, and the tokens of a text before a
    separator come before the tokens of the text after it. It is
    idempotent: every token is its own only token, and the tokens joined
    by a space or by a comma tokenize to themselves. The input
    "fever, cough   headache" gives fever, cough, headache. *)
Theorem tokenize_reference :
  (forall s, tokenize s = spec_tokenize s)
  /\ (forall s,
        concat (tokenize s) = filter (fun c => negb (is_separator c)) s)
  /\ (forall a b, tokenize (a ++ lit " " ++ b) = tokenize a ++ tokenize b)
  /\ (forall a b, tokenize (a ++ lit "," ++ b) = tokenize a ++ tokenize b)
  /\ (forall s, Forall (fun t => tokenize t = [t]) (tokenize s))
  /\ (forall s, tokenize (Array_join (lit " ") (tokenize s)) = tokenize s)
  /\ (forall s, tokenize (Array_join (lit ",") (tokenize s)) = tokenize s)
  /\ tokenize (lit "fever, cough   headache")
     = [lit "fever"; lit "cough"; lit "headache"].
Proof.
  split; [exact tokenize_spec|].
  split; [intros s; rewrite tokenize_words; apply (words_concat s [])|].
  split; [intros a b; apply tokenize_append; reflexivity|].
  split; [intros a b; apply tokenize_append; reflexivity|].
  split.
  { intros s. eapply Forall_impl; [|apply tokenize_token_ok].
    intros t Ht. rewrite tokenize_words. apply words_token, Ht. }
  split; [intros s; apply tokenize_join; reflexivity|].
  split; [intros s; apply tokenize_join; reflexivity|].
  vm_compute. reflexivity.
Qed.

(* ===================================================================== *)
(** ** Submit: validation *)
(* ===================================================================== *)

(** A run of either copy of the handler, unfolded to its events. *)
Ltac unfold_handlers :=
  unfold final_view, trace, outcome,
    Local.handleDiagnose, Configurable.handleDiagnose.

(** C2. An input with no token: the error is the validation message, no
    network call is issued, and the handler ends. The copy with the fixed
    base address returns; the copy with the configurable one evaluates
    the stray identifier [s] after it has set the error, and so returns
    when the global scope binds [s] and ends by a ReferenceError when it
    does not. *)
Theorem validation_error (REACT_APP_API_URL : option jsstring)
  (global_s : option value) (st : View) (net : settle Response) :
  spec_tokenize (symptoms st) = [] ->
  (error (final_view st (Local.handleDiagnose st net))
   = JStr (lit "Please enter at least one symptom.")
   /\ fetch_calls (trace (Local.handleDiagnose st net)) = []
   /\ outcome (Local.handleDiagnose st net) = Normal tt)
  /\ (error (final_view st
               (Configurable.handleDiagnose REACT_APP_API_URL global_s st net))
      = JStr (lit "Please enter at least one symptom.")
      /\ fetch_calls
           (trace (Configurable.handleDiagnose REACT_APP_API_URL global_s
                     st net)) = []
      /\ outcome (Configurable.handleDiagnose REACT_APP_API_URL global_s
                    st net)
         = match global_s with
           | Some _ => Normal tt
           | None =>
               Abrupt (ErrorObject "ReferenceError" (lit "s is not defined"))
           end).
Proof.
  intros H. rewrite <- tokenize_spec in H. unfold_handlers. rewrite H.
  split; [repeat split|].
  destruct global_s; repeat split.
Qed.

Lemma validation_error_witness :
  error (final_view (view_with " ,,  , ")
           (Local.handleDiagnose (view_with " ,,  , ") NeverSettles))
  = JStr (lit "Please enter at least one symptom.")
  /\ fetch_calls
       (trace (Configurable.handleDiagnose None None (view_with " ,,  , ")
                 NeverSettles)) = [].
Proof.
  destruct (@validation_error None None (view_with " ,,  , ") NeverSettles)
    as [[H _] [_ [H' _]]].
  - vm_compute. reflexivity.
  - split; [exact H | exact H'].
Defined.

(* ===================================================================== *)
(** ** Submit: the response *)
(* ===================================================================== *)

(** The statement of the specification on the [results] field, for every
    field value, fails on a success response whose body is the object
    with [results] set to null: the field is there, the result set does
    not become null, and the error becomes "No results returned". *)
Lemma results_field_null_counterexample :
  ~ (forall (st : View) (resp : Response) (fields : list (jsstring * value))
       (v : value),
        tokenize (symptoms st) <> [] ->
        ok resp = true ->
        json resp = Fulfilled (JObj fields) ->
        own_property (lit "results") fields = Some v ->
        results (final_view st (Local.handleDiagnose st (Fulfilled resp))) = v
        /\ error (final_view st (Local.handleDiagnose st (Fulfilled resp)))
           = JStr (lit "")).
Proof.
  intros H.
  destruct (H (view_with "fever")
              (json_response (JObj [(lit "results", JNull)]))
              [(lit "results", JNull)] JNull) as [_ He];
    try reflexivity.
  - vm_compute. discriminate.
  - vm_compute in He. discriminate He.
Qed.

(** C4, amended. A success response whose body parses to an object with a
    truthy [results] field: the result set becomes the value of the field,
    as it is, the error stays empty, loading is false again and the
    handler returns; in both copies. *)
Theorem results_passed_through (REACT_APP_API_URL : option jsstring)
  (global_s : option value) (st : View) (resp : Response)
  (fields : list (jsstring * value)) (v : value) :
  tokenize (symptoms st) <> [] ->
  ok resp = true ->
  json resp = Fulfilled (JObj fields) ->
  own_property (lit "results") fields = Some v ->
  ToBoolean v = true ->
  final_view st (Local.handleDiagnose st (Fulfilled resp))
  = {| symptoms := symptoms st; results := v; loading := false;
       error := JStr (lit "") |}
  /\ outcome (Local.handleDiagnose st (Fulfilled resp)) = Normal tt
  /\ final_view st
       (Configurable.handleDiagnose REACT_APP_API_URL global_s st
          (Fulfilled resp))
     = {| symptoms := symptoms st; results := v; loading := false;
          error := JStr (lit "") |}
  /\ outcome (Configurable.handleDiagnose REACT_APP_API_URL global_s st
                (Fulfilled resp)) = Normal tt.
Proof.
  intros Htok Hok Hjson Hres Hv. unfold_handlers.
  destruct (tokenize (symptoms st)) as [|t ts]; [contradiction|].
  cbn. rewrite Hok, Hjson. cbn. rewrite Hres. cbn. rewrite Hv. cbn.
  repeat split.
Qed.

Lemma results_passed_through_witness :
  results (final_view (view_with "fever, cough")
             (Local.handleDiagnose (view_with "fever, cough")
                (Fulfilled
                   (json_response (JObj [(lit "results", JArr [common_cold])])))))
  = JArr [common_cold]
  /\ error (final_view (view_with "fever, cough")
              (Local.handleDiagnose (view_with "fever, cough")
                 (Fulfilled
                    (json_response
                       (JObj [(lit "results", JArr [common_cold])])))))
     = JStr (lit "").
Proof.
  destruct (@results_passed_through None None (view_with "fever, cough")
              (json_response (JObj [(lit "results", JArr [common_cold])]))
              [(lit "results", JArr [common_cold])] (JArr [common_cold]))
    as [H _]; try reflexivity.
  - vm_compute. discriminate.
  - rewrite H. split; reflexivity.
Defined.

(** The statement of the specification on the [message] field fails on a
    success response whose body is the object with [message] set to the
    empty string: the field is there, and the error becomes
    "No results returned" instead of the empty message. *)
Lemma message_field_empty_counterexample :
  ~ (forall (st : View) (resp : Response) (fields : list (jsstring * value)),
        tokenize (symptoms st) <> [] ->
        ok resp = true ->
        json resp = Fulfilled (JObj fields) ->
        own_property (lit "results") fields = None ->
        error (final_view st (Local.handleDiagnose st (Fulfilled resp)))
        = match own_property (lit "message") fields with
          | Some m => m
          | None => JStr (lit "No results returned")
          end
        /\ results (final_view st (Local.handleDiagnose st (Fulfilled resp)))
           = JArr []).
Proof.
  intros H.
  destruct (H (view_with "fever")
              (json_response (JObj [(lit "message", JStr (lit ""))]))
              [(lit "message", JStr (lit ""))]) as [He _];
    try reflexivity.
  - vm_compute. discriminate.
  - vm_compute in He. discriminate He.
Qed.

(** C5, amended. A success response whose body parses to an object
    without a [results] field: the error becomes the [message] field when
    the field is there and truthy, and "No results returned" otherwise;
    the result set is empty, loading is false again and the handler
    returns; in both copies. *)
Theorem message_or_fallback (REACT_APP_API_URL : option jsstring)
  (global_s : option value) (st : View) (resp : Response)
  (fields : list (jsstring * value)) :
  tokenize (symptoms st) <> [] ->
  ok resp = true ->
  json resp = Fulfilled (JObj fields) ->
  own_property (lit "results") fields = None ->
  final_view st (Local.handleDiagnose st (Fulfilled resp))
  = {| symptoms := symptoms st; results := JArr []; loading := false;
       error := match own_property (lit "message") fields with
                | Some m => if ToBoolean m then m
                            else JStr (lit "No results returned")
                | None => JStr (lit "No results returned")
                end |}
  /\ outcome (Local.handleDiagnose st (Fulfilled resp)) = Normal tt
  /\ final_view st
       (Configurable.handleDiagnose REACT_APP_API_URL global_s st
          (Fulfilled resp))
     = final_view st (Local.handleDiagnose st (Fulfilled resp))
  /\ outcome (Configurable.handleDiagnose REACT_APP_API_URL global_s st
                (Fulfilled resp)) = Normal tt.
Proof.
  intros Htok Hok Hjson Hres. unfold_handlers.
  destruct (tokenize (symptoms st)) as [|t ts]; [contradiction|].
  cbn. rewrite Hok, Hjson. cbn. rewrite Hres. cbn.
  destruct (own_property (lit "message") fields) as [m|]; cbn.
  - unfold logical_or. destruct (ToBoolean m); repeat split.
  - repeat split.
Qed.

Lemma message_or_fallback_witness :
  error (final_view (view_with "fever")
           (Local.handleDiagnose (view_with "fever")
              (Fulfilled
                 (json_response (JObj [(lit "message", JStr (lit "no match"))])))))
  = JStr (lit "no match")
  /\ results (final_view (view_with "fever")
                (Local.handleDiagnose (view_with "fever")
                   (Fulfilled
                      (json_response
                         (JObj [(lit "message", JStr (lit "no match"))])))))
     = JArr [].
Proof.
  destruct (@message_or_fallback None None (view_with "fever")
              (json_response (JObj [(lit "message", JStr (lit "no match"))]))
              [(lit "message", JStr (lit "no match"))])
    as [H _]; try reflexivity.
  - vm_compute. discriminate.
  - rewrite H. split; reflexivity.
Defined.

(* ===================================================================== *)
(** ** Submit: failures, loading, the request *)
(* ===================================================================== *)

(** One step of the case analysis of a run: on the status, on how a body
    read ends, on the shape of the parsed body and on its fields. *)
Ltac run_step :=
  match goal with
  | |- context [ok ?r] => destruct (ok r) eqn:?
  | |- context [json ?r] => destruct (json r) eqn:?
  | |- context [text ?r] => destruct (text r) eqn:?
  | |- context [Get ?d _] => is_var d; destruct d
  | |- context [own_property ?k ?f] => destruct (own_property k f) eqn:?
  | |- context [ToBoolean ?v] => is_var v; destruct (ToBoolean v) eqn:?
  end.

Ltac run_cases := cbn; repeat (run_step; cbn).

(** C6. A request that fails (the call fails, the status is not a success
    status, or the body of a success response does not parse) leaves the
    generic message as the error and the result set empty; the cause is
    written to the console and the error shown does not depend on it;
    loading is false again and the handler returns; in both copies. *)
Theorem request_failure_generic (REACT_APP_API_URL : option jsstring)
  (global_s : option value) (st : View) (net : settle Response)
  (cause : thrown) :
  tokenize (symptoms st) <> [] ->
  request_fails net cause ->
  (final_view st (Local.handleDiagnose st net) = failure_view st
   /\ In (ConsoleError (lit "Diagnosis request failed:") cause)
        (trace (Local.handleDiagnose st net))
   /\ outcome (Local.handleDiagnose st net) = Normal tt)
  /\ (final_view st
        (Configurable.handleDiagnose REACT_APP_API_URL global_s st net)
      = failure_view st
      /\ In (ConsoleError (lit "Diagnosis request failed:") cause)
           (trace
              (Configurable.handleDiagnose REACT_APP_API_URL global_s st net))
      /\ outcome
           (Configurable.handleDiagnose REACT_APP_API_URL global_s st net)
         = Normal tt).
Proof.
  intros Htok Hfail. unfold failure_view; unfold_handlers.
  destruct (tokenize (symptoms st)) as [|t ts]; [contradiction|].
  destruct Hfail as [e | resp txt Hok Htxt | resp e Hok Htxt | resp e Hok Hjs];
    cbn; rewrite ?Hok, ?Htxt, ?Hjs; cbn;
    repeat split; auto 10.
Qed.

Lemma request_failure_generic_witness :
  final_view (view_with "fever")
    (Local.handleDiagnose (view_with "fever")
       (Fulfilled (status_response 503 "Service Unavailable" "try later")))
  = failure_view (view_with "fever")
  /\ In (ConsoleError (lit "Diagnosis request failed:")
           (ErrorObject "Error" (lit "API error 503: try later")))
        (trace
           (Local.handleDiagnose (view_with "fever")
              (Fulfilled
                 (status_response 503 "Service Unavailable" "try later")))).
Proof.
  destruct (@request_failure_generic None None (view_with "fever")
              (Fulfilled (status_response 503 "Service Unavailable" "try later"))
              (ErrorObject "Error" (lit "API error 503: try later")))
    as [[H [H' _]] _].
  - vm_compute. discriminate.
  - apply (@status_failure
             (status_response 503 "Service Unavailable" "try later")
             (lit "try later")); reflexivity.
  - split; [exact H | exact H'].
Defined.

(** A body that parses to null also ends in the generic message: reading
    [results] from null throws inside the [try] block. *)
Lemma null_body_generic (st : View) (resp : Response) :
  tokenize (symptoms st) <> [] ->
  ok resp = true -> json resp = Fulfilled JNull ->
  final_view st (Local.handleDiagnose st (Fulfilled resp)) = failure_view st.
Proof.
  intros Htok Hok Hjs. unfold failure_view; unfold_handlers.
  destruct (tokenize (symptoms st)) as [|t ts]; [contradiction|].
  cbn. rewrite Hok, Hjs. reflexivity.
Qed.

(** Every way of cutting a concrete trace in two. *)
Ltac cut_trace Heq Hissued Hrest tr1 :=
  repeat
    (destruct tr1 as [|? tr1];
     [ cbn in Heq; subst;
       first [ discriminate Hissued
             | exfalso; apply Hrest; reflexivity
             | reflexivity ]
     | cbn in Heq; first [ discriminate Heq | injection Heq as <- Heq ] ]).

Ltac loading_case :=
  repeat split;
  try discriminate; try congruence;
  try (let tr1 := fresh "tr1" in
       let tr2 := fresh "tr2" in
       let Heq := fresh "Heq" in
       let Hissued := fresh "Hissued" in
       let Hrest := fresh "Hrest" in
       intros tr1 tr2 Heq Hissued Hrest;
       cut_trace Heq Hissued Hrest tr1).

(** C7. A Submit that passes validation: loading is true from the moment
    the call is issued up to the last step of the handler. When the
    request comes to an end, whichever way (a result, a message, a
    failing call, a failing status, a body that does not parse), the
    handler returns and its last step sets loading back to false; only a
    request that never comes to an end leaves the handler suspended and
    loading true; in both copies. *)
Theorem loading_over_request (REACT_APP_API_URL : option jsstring)
  (global_s : option value) (st : View) (net : settle Response) :
  tokenize (symptoms st) <> [] ->
  loading_while_in_flight st net (Local.handleDiagnose st net)
  /\ loading_while_in_flight st net
       (Configurable.handleDiagnose REACT_APP_API_URL global_s st net).
Proof.
  intros Htok. unfold loading_while_in_flight, request_settles.
  unfold_handlers.
  destruct (tokenize (symptoms st)) as [|t ts]; [contradiction|].
  clear Htok.
  destruct net as [resp|e|]; run_cases; split; loading_case.
Qed.

Lemma loading_over_request_witness :
  loading_while_in_flight (view_with "fever cough")
    (Fulfilled (json_response (JObj [(lit "results", JArr [common_cold])])))
    (Local.handleDiagnose (view_with "fever cough")
       (Fulfilled (json_response (JObj [(lit "results", JArr [common_cold])]))))
  /\ loading_while_in_flight (view_with "fever cough")
       (Fulfilled (status_response 503 "Service Unavailable" "try later"))
       (Configurable.handleDiagnose None None (view_with "fever cough")
          (Fulfilled (status_response 503 "Service Unavailable" "try later"))).
Proof.
  split.
  - apply (@loading_over_request None None (view_with "fever cough")
             (Fulfilled
                (json_response (JObj [(lit "results", JArr [common_cold])])))).
    vm_compute. discriminate.
  - apply (@loading_over_request None None (view_with "fever cough")
             (Fulfilled
                (status_response 503 "Service Unavailable" "try later"))).
    vm_compute. discriminate.
Defined.

(** A response whose body never finishes to arrive: the call has
    settled, the read of the body has not, and the handler stays
    suspended with loading true. *)
Lemma pending_body_keeps_loading (st : View) (resp : Response) :
  tokenize (symptoms st) <> [] ->
  ok resp = true -> json resp = NeverSettles ->
  outcome (Local.handleDiagnose st (Fulfilled resp)) = Suspended
  /\ loading (final_view st (Local.handleDiagnose st (Fulfilled resp))) = true.
Proof.
  intros Htok Hok Hjson. unfold_handlers.
  destruct (tokenize (symptoms st)) as [|t ts]; [contradiction|].
  cbn. rewrite Hok, Hjson. split; reflexivity.
Qed.

(** A request that never settles leaves the handler suspended, with
    loading true. *)
Lemma pending_request_keeps_loading (st : View) :
  tokenize (symptoms st) <> [] ->
  outcome (Local.handleDiagnose st NeverSettles) = Suspended
  /\ loading (final_view st (Local.handleDiagnose st NeverSettles)) = true.
Proof.
  intros Htok. unfold_handlers.
  destruct (tokenize (symptoms st)) as [|t ts]; [contradiction|].
  split; reflexivity.
Qed.

(** The statement of the specification that every Submit issues exactly
    one network call fails on the empty input: no call is issued. *)
Lemma one_call_empty_input_counterexample :
  ~ (forall (st : View) (net : settle Response),
        length (fetch_calls (trace (Local.handleDiagnose st net))) = 1).
Proof.
  intros H. specialize (H (view_with "") NeverSettles).
  vm_compute in H. discriminate H.
Qed.

(** C8, amended. A Submit issues no network call when the token list is
    empty and exactly one otherwise, however the request ends: a POST to
    [/api/diagnose] under the base address, with a JSON content type and
    the body [{symptoms: tokens}], the tokens in their order and none of
    them empty; in both copies. *)
Theorem one_request_when_valid (REACT_APP_API_URL : option jsstring)
  (global_s : option value) (st : View) (net : settle Response) :
  Forall (fun t => t <> []) (tokenize (symptoms st))
  /\ fetch_calls (trace (Local.handleDiagnose st net))
     = match tokenize (symptoms st) with
       | [] => []
       | _ :: _ =>
           [(Local.API_BASE ++ lit "/api/diagnose",
             spec_request (tokenize (symptoms st)))]
       end
  /\ fetch_calls
       (trace (Configurable.handleDiagnose REACT_APP_API_URL global_s st net))
     = match tokenize (symptoms st) with
       | [] => []
       | _ :: _ =>
           [(Configurable.API_BASE REACT_APP_API_URL ++ lit "/api/diagnose",
             spec_request (tokenize (symptoms st)))]
       end.
Proof.
  split.
  { eapply Forall_impl; [|apply tokenize_token_ok]. intros t [Ht _]. exact Ht. }
  unfold_handlers. unfold spec_request.
  destruct (tokenize (symptoms st)) as [|t ts].
  - destruct global_s; split; reflexivity.
  - destruct net as [resp|e|]; run_cases; split; reflexivity.
Qed.

(** C10. A Submit leaves the stored input as it was, however it ends; in
    both copies. *)
Theorem input_unchanged (REACT_APP_API_URL : option jsstring)
  (global_s : option value) (st : View) (net : settle Response) :
  symptoms (final_view st (Local.handleDiagnose st net)) = symptoms st
  /\ symptoms
       (final_view st
          (Configurable.handleDiagnose REACT_APP_API_URL global_s st net))
     = symptoms st.
Proof.
  unfold_handlers.
  destruct (tokenize (symptoms st)) as [|t ts].
  - destruct global_s; split; reflexivity.
  - destruct net as [resp|e|]; run_cases; split; reflexivity.
Qed.

(** Typing does replace the stored input. *)
Lemma onChange_replaces_input (st : View) (target_value : jsstring) :
  symptoms (final_view st (Local.onChange target_value)) = target_value.
Proof. reflexivity. Qed.

(* ===================================================================== *)
(** ** The two copies *)
(* ===================================================================== *)

(** C1. For every input, every environment and every way the request
    ends, the two copies leave the same view, perform the same events
    apart from the network call, and issue the same network calls up to
    the base address they are sent to. *)
Theorem copies_agree (REACT_APP_API_URL : option jsstring)
  (global_s : option value) (st : View) (net : settle Response) :
  final_view st
    (Configurable.handleDiagnose REACT_APP_API_URL global_s st net)
  = final_view st (Local.handleDiagnose st net)
  /\ other_events
       (trace (Configurable.handleDiagnose REACT_APP_API_URL global_s st net))
     = other_events (trace (Local.handleDiagnose st net))
  /\ exists calls : list (jsstring * RequestInit),
       fetch_calls
         (trace
            (Configurable.handleDiagnose REACT_APP_API_URL global_s st net))
       = map (fun c => (Configurable.API_BASE REACT_APP_API_URL ++ fst c,
                        snd c)) calls
       /\ fetch_calls (trace (Local.handleDiagnose st net))
          = map (fun c => (Local.API_BASE ++ fst c, snd c)) calls.
Proof.
  unfold_handlers.
  destruct (tokenize (symptoms st)) as [|t ts].
  - destruct global_s; repeat split; exists []; split; reflexivity.
  - destruct net as [resp|e|]; run_cases; repeat split;
      exists [(lit "/api/diagnose", spec_request (t :: ts))];
      split; reflexivity.
Qed.

(** After validation the two copies also end the same way. *)
Lemma copies_end_alike (REACT_APP_API_URL : option jsstring)
  (global_s : option value) (st : View) (net : settle Response) :
  tokenize (symptoms st) <> [] ->
  outcome (Configurable.handleDiagnose REACT_APP_API_URL global_s st net)
  = outcome (Local.handleDiagnose st net).
Proof.
  intros Htok. unfold_handlers.
  destruct (tokenize (symptoms st)) as [|t ts]; [contradiction|].
  destruct net as [resp|e|]; run_cases; reflexivity.
Qed.

(** On an input with no token the copy with the configurable base address
    ends by throwing, where the other copy returns: after the error is
    set, the stray identifier [s] is evaluated, and nothing binds it. *)
Lemma stray_identifier_throws (REACT_APP_API_URL : option jsstring)
  (st : View) (net : settle Response) :
  tokenize (symptoms st) = [] ->
  outcome (Configurable.handleDiagnose REACT_APP_API_URL None st net)
  = Abrupt (ErrorObject "ReferenceError" (lit "s is not defined"))
  /\ outcome (Local.handleDiagnose st net) = Normal tt.
Proof.
  intros Htok. unfold_handlers. rewrite Htok. split; reflexivity.
Qed.

(* ===================================================================== *)
(** ** The Number of an integer below 2^53 *)
(* ===================================================================== *)

Lemma digits2_pos_size (p : positive) : digits2_pos p = Pos.size p.
Proof. induction p; simpl; congruence. Qed.

Lemma iter_xO_digits (p d : positive) :
  digits2_pos (Pos.iter xO p d) = (digits2_pos p + d)%positive.
Proof.
  induction d as [|d IH] using Pos.peano_ind.
  - simpl. lia.
  - rewrite Pos.iter_succ. simpl. rewrite IH. lia.
Qed.

Lemma iter_xO_value (p d : positive) :
  Zpos (Pos.iter xO p d) = (Zpos p * 2 ^ Zpos d)%Z.
Proof.
  induction d as [|d IH] using Pos.peano_ind.
  - simpl. lia.
  - rewrite Pos.iter_succ, Pos2Z.inj_xO, IH, Pos2Z.inj_succ.
    rewrite Z.pow_succ_r by lia. lia.
Qed.

Lemma digits_bound (p : positive) :
  (Zpos p < 2 ^ 53)%Z -> (Zpos (digits2_pos p) <= 53)%Z.
Proof.
  intros H. rewrite digits2_pos_size.
  destruct (Z.le_gt_cases (Zpos (Pos.size p)) 53) as [Hle|Hgt]; [exact Hle|].
  exfalso.
  pose proof (Pos.size_le p) as Hs.
  assert (H54 : (2 ^ 54 <= 2 ^ Zpos (Pos.size p))%Z)
    by (apply Z.pow_le_mono_r; lia).
  assert (Hp : (2 ^ Zpos (Pos.size p) <= 2 * Zpos p)%Z).
  { change 2%Z with (Zpos 2) at 1. rewrite <- Pos2Z.inj_pow.
    change (2 * Zpos p)%Z with (Zpos (p~0)). apply Pos2Z.pos_le_pos. exact Hs. }
  change (2 ^ 54)%Z with (2 * 2 ^ 53)%Z in H54. lia.
Qed.

(** A mantissa of 53 digits with an exponent in range is left as it is
    by the rounding step. *)
Lemma binary_round_aux_exact (s : bool) (m : positive) (e : Z) :
  Zpos (digits2_pos m) = 53%Z -> (-52 <= e <= 0)%Z ->
  binary_round_aux 53 1024 s (Zpos m) e loc_Exact = S754_finite s m e.
Proof.
  intros Hd He.
  assert (Hf : forall mm, Zpos (digits2_pos mm) = 53%Z ->
             shr_fexp 53 1024 (Zpos mm) e loc_Exact
             = ({| shr_m := Zpos mm; shr_r := false; shr_s := false |}, e)).
  { intros mm Hmm. unfold shr_fexp, fexp, emin. cbn [Zdigits2].
    rewrite Hmm.
    replace (Z.max (53 + e - 53) (3 - 1024 - 53) - e)%Z with 0%Z by lia.
    reflexivity. }
  unfold binary_round_aux. rewrite (Hf m Hd). cbn [shr_m loc_of_shr_record
    round_nearest_even]. rewrite (Hf m Hd). cbn [shr_m].
  replace (e <=? 1024 - 53)%Z with true by (symmetry; apply Z.leb_le; lia).
  reflexivity.
Qed.

Lemma binary_round_integer (s : bool) (p : positive) :
  (Zpos p < 2 ^ 53)%Z ->
  exists m e,
    binary_round 53 1024 s p 0 = S754_finite s m e
    /\ integral_value (S754_finite s m e) = Some (cond_Zopp s (Zpos p)).
Proof.
  intros Hp. pose proof (digits_bound Hp) as Hd.
  unfold binary_round, shl_align, fexp, emin.
  replace (Z.max (Zpos (digits2_pos p) + 0 - 53) (3 - 1024 - 53))%Z
    with (Zpos (digits2_pos p) - 53)%Z by lia.
  destruct (Zpos (digits2_pos p) - 53 - 0)%Z as [|d|d] eqn:Hdiff.
  - exists p, 0%Z. split.
    + apply binary_round_aux_exact; lia.
    + cbn [integral_value]. rewrite Z.pow_0_r, Z.mul_1_r. reflexivity.
  - lia.
  - assert (He : (Zpos (digits2_pos p) - 53 = Zneg d)%Z) by lia.
    exists (Pos.iter xO p d), (Zneg d). rewrite He. split.
    + apply binary_round_aux_exact.
      * rewrite iter_xO_digits, Pos2Z.inj_add. lia.
      * lia.
    + cbn [integral_value]. rewrite iter_xO_value.
      rewrite Z.mod_mul by lia. cbn [Z.eqb].
      rewrite Z.div_mul by lia. reflexivity.
Qed.

Lemma N_toString_abs (n : Z) : N_toString (Z.abs_N n) = N_toString (Z.abs_N (- n)).
Proof. rewrite Zabs2N.inj_opp. reflexivity. Qed.

Section RenderingFacts.

Variable StringToNumber : jsstring -> number.
Variable ObjectToNumber : value -> number.
Variable Number_toString_other : number -> jsstring.

(** A finite Number that is the integer [n], below 2^53 in magnitude,
    is written as [n] in decimal. *)
Lemma Number_toString_integral (s : bool) (m : positive) (e : Z) (n : Z) :
  integral_value (S754_finite s m e) = Some n ->
  (Z.abs n < 2 ^ 53)%Z ->
  (n <? 0)%Z = s ->
  Number_toString Number_toString_other (S754_finite s m e) = Z_toString n.
Proof.
  intros Hi Hn Hs. unfold Number_toString, Z_toString. rewrite Hi.
  replace (Z.abs n <? 2 ^ 53)%Z with true
    by (symmetry; apply Z.ltb_lt; exact Hn).
  rewrite Hs. reflexivity.
Qed.

Lemma Number_toString_of_Z (n : Z) :
  n <> 0%Z -> (Z.abs n < 2 ^ 53)%Z ->
  Number_toString Number_toString_other (Number_of_Z n) = Z_toString n.
Proof.
  intros Hn0 Hn. unfold Number_of_Z, binary_normalize.
  destruct n as [|p|p]; [contradiction| |].
  - destruct (@binary_round_integer false p) as [m [e [Hr Hi]]]; [lia|].
    rewrite Hr. apply Number_toString_integral; [exact Hi | lia | reflexivity].
  - destruct (@binary_round_integer true p) as [m [e [Hr Hi]]]; [lia|].
    rewrite Hr. apply Number_toString_integral; [exact Hi | lia | reflexivity].
Qed.

End RenderingFacts.

(* ===================================================================== *)
(** ** Rounding half up *)
(* ===================================================================== *)

Lemma rounds_half_up_integer (N n : Z) :
  rounds_half_up (inject_Z N) n -> n = N.
Proof.
  unfold rounds_half_up, Qle, Qlt, Qminus, Qplus, Qopp, inject_Z.
  cbn [Qnum Qden]. lia.
Qed.

Lemma rounds_half_up_dyadic (M : Z) (k : positive) (n : Z) :
  rounds_half_up (M # 2 ^ k) n ->
  ((2 * n - 1) * 2 ^ Zpos k <= 2 * M < (2 * n + 1) * 2 ^ Zpos k)%Z.
Proof.
  unfold rounds_half_up, Qle, Qlt, Qminus, Qplus, Qopp, inject_Z.
  cbn [Qnum Qden]. rewrite Pos2Z.inj_pow. lia.
Qed.

Lemma rounds_half_up_floor (M : Z) (k : positive) (n : Z) :
  rounds_half_up (M # 2 ^ k) n ->
  n = ((2 * M + 2 ^ Zpos k) / (2 * 2 ^ Zpos k))%Z.
Proof.
  intros H. apply rounds_half_up_dyadic in H.
  assert (Hd : (0 < 2 ^ Zpos k)%Z) by (apply Z.pow_pos_nonneg; lia).
  apply Z.div_unique with (r := (2 * M + 2 ^ Zpos k - 2 * 2 ^ Zpos k * n)%Z);
    [left|]; lia.
Qed.

Lemma some_inj (A : Type) (a b : A) : Some a = Some b -> a = b.
Proof. congruence. Qed.

Lemma cond_Zopp_sign (s : bool) (a : Z) :
  (0 < a)%Z -> (cond_Zopp s a <? 0)%Z = s.
Proof.
  intros Ha. destruct s; cbn [cond_Zopp].
  - apply Z.ltb_lt. lia.
  - apply Z.ltb_ge. lia.
Qed.

(* ===================================================================== *)
(** ** The binary64 product of a Number between 0 and 1 with 100 *)
(* ===================================================================== *)

Local Open Scope Z_scope.

Lemma shr_1_mantissa (r : shr_record) :
  0 <= shr_m r -> shr_m (shr_1 r) = shr_m r / 2.
Proof.
  destruct r as [m rb sb]. cbn [shr_m]. intros Hm.
  destruct m as [|p|p]; [reflexivity| |lia].
  destruct p as [p|p|]; cbn [shr_1 shr_m].
  - rewrite (Pos2Z.inj_xI p).
    apply Z.div_unique with (r := 1); lia.
  - rewrite (Pos2Z.inj_xO p).
    apply Z.div_unique with (r := 0); lia.
  - reflexivity.
Qed.

Lemma iter_shr_1_mantissa (p : positive) :
  forall r, 0 <= shr_m r ->
  shr_m (iter_pos shr_1 p r) = shr_m r / 2 ^ Zpos p.
Proof.
  induction p as [p IH|p IH|]; intros r Hr; cbn [iter_pos].
  - assert (H1 : 0 <= shr_m (shr_1 r))
      by (rewrite shr_1_mantissa by exact Hr; apply Z.div_pos; lia).
    assert (H2 : 0 <= shr_m (iter_pos shr_1 p (shr_1 r)))
      by (rewrite IH by exact H1; apply Z.div_pos; [lia|apply Z.pow_pos_nonneg; lia]).
    rewrite IH by exact H2. rewrite IH by exact H1.
    rewrite shr_1_mantissa by exact Hr.
    assert (Hp : 0 < 2 ^ Zpos p) by (apply Z.pow_pos_nonneg; lia).
    rewrite !Z.div_div by lia. f_equal.
    rewrite (Pos2Z.inj_xI p).
    replace (2 * Zpos p + 1) with (Z.succ (Zpos p + Zpos p)) by lia. 
    rewrite Z.pow_succ_r by lia. rewrite (Z.pow_add_r 2 (Zpos p) (Zpos p)); [reflexivity|lia|lia].
  - assert (H2 : 0 <= shr_m (iter_pos shr_1 p r))
      by (rewrite IH by exact Hr; apply Z.div_pos; [lia|apply Z.pow_pos_nonneg; lia]).
    rewrite IH by exact H2. rewrite IH by exact Hr.
    assert (Hp : 0 < 2 ^ Zpos p) by (apply Z.pow_pos_nonneg; lia).
    rewrite !Z.div_div by lia. f_equal.
    rewrite (Pos2Z.inj_xO p).
    replace (2 * Zpos p) with (Zpos p + Zpos p) by lia.
    rewrite (Z.pow_add_r 2 (Zpos p) (Zpos p)); [reflexivity|lia|lia].
  - rewrite shr_1_mantissa by exact Hr. reflexivity.
Qed.

(** [shr_fexp] on a non-negative mantissa: the exponent grows to the
    canonical one, and the mantissa is divided accordingly. *)
Lemma shr_fexp_mantissa (m e : Z) (l : location) :
  0 <= m ->
  snd (shr_fexp 53 1024 m e l) = Z.max e (fexp 53 1024 (Zdigits2 m + e))
  /\ shr_m (fst (shr_fexp 53 1024 m e l))
     = m / 2 ^ (snd (shr_fexp 53 1024 m e l) - e).
Proof.
  intros Hm. unfold shr_fexp, shr.
  assert (Hrec : shr_m (shr_record_of_loc m l) = m)
    by (destruct l as [|[| |]]; reflexivity).
  destruct (fexp 53 1024 (Zdigits2 m + e) - e) as [|p|p] eqn:Hd; cbn [fst snd].
  - rewrite Z.sub_diag, Z.pow_0_r, Z.div_1_r. split; [lia|exact Hrec].
  - split; [lia|].
    rewrite iter_shr_1_mantissa by (rewrite Hrec; exact Hm).
    rewrite Hrec. f_equal. f_equal. lia.
  - rewrite Z.sub_diag, Z.pow_0_r, Z.div_1_r. split; [lia|exact Hrec].
Qed.

Lemma round_nearest_even_bounds (m : Z) (l : location) :
  m <= round_nearest_even m l <= m + 1.
Proof.
  destruct l as [|[| |]]; cbn [round_nearest_even]; try lia.
  destruct (Z.even m); lia.
Qed.

Lemma Zdigits2_bound (m k : Z) :
  0 <= k -> 0 <= m < 2 ^ k -> Zdigits2 m <= k.
Proof.
  intros Hk [Hm Hlt]. destruct m as [|p|p]; [exact Hk| |lia].
  cbn [Zdigits2]. rewrite digits2_pos_size.
  destruct (Z.le_gt_cases (Zpos (Pos.size p)) k) as [Hle|Hgt]; [exact Hle|].
  exfalso.
  pose proof (Pos.size_le p) as Hs.
  assert (Hp : 2 ^ Zpos (Pos.size p) <= 2 * Zpos p).
  { change 2 with (Zpos 2) at 1. rewrite <- Pos2Z.inj_pow.
    change (2 * Zpos p) with (Zpos (p~0)). apply Pos2Z.pos_le_pos. exact Hs. }
  assert (Hk1 : 2 ^ (k + 1) <= 2 ^ Zpos (Pos.size p))
    by (apply Z.pow_le_mono_r; lia).
  rewrite Z.pow_add_r, Z.pow_1_r in Hk1 by lia. lia.
Qed.

(** The rounding step on a positive mantissa of at most 106 digits with
    an exponent between -1120 and -98: the result is a zero or a finite
    Number whose exponent is at most 9 and whose value exceeds the exact
    one by less than 2^-45. *)
Lemma binary_round_aux_small (s : bool) (M : positive) (E : Z) :
  Zpos M < 2 ^ 106 -> -1120 <= E <= -98 ->
  binary_round_aux 53 1024 s (Zpos M) E loc_Exact = S754_zero s
  \/ exists m2 e2,
       binary_round_aux 53 1024 s (Zpos M) E loc_Exact = S754_finite s m2 e2
       /\ E <= e2 <= 9
       /\ Zpos m2 * 2 ^ (e2 - E) <= Zpos M + 2 ^ (-45 - E).
Proof.
  intros HM HE. unfold binary_round_aux.
  destruct (@shr_fexp_mantissa (Zpos M) E loc_Exact ltac:(lia)) as [He1 Hm1].
  destruct (shr_fexp 53 1024 (Zpos M) E loc_Exact) as [mrs1 e1].
  cbn [fst snd] in He1, Hm1.
  pose proof (@Zdigits2_bound (Zpos M) 106 ltac:(lia) ltac:(lia)) as HdM.
  assert (HdM0 : 0 <= Zdigits2 (Zpos M)) by (cbn; lia).
  assert (He1b : E <= e1 <= -45) by (unfold fexp, emin in He1; lia).
  assert (Hp1 : 0 < 2 ^ (e1 - E)) by (apply Z.pow_pos_nonneg; lia).
  assert (Hm1b : 0 <= shr_m mrs1 <= Zpos M).
  { rewrite Hm1. split; [apply Z.div_pos; lia|].
    apply Z.div_le_upper_bound; [lia|]. nia. }
  pose proof (round_nearest_even_bounds (shr_m mrs1) (loc_of_shr_record mrs1))
    as Hr.
  set (m1 := round_nearest_even (shr_m mrs1) (loc_of_shr_record mrs1)) in *.
  destruct (@shr_fexp_mantissa m1 e1 loc_Exact ltac:(lia)) as [He2 Hm2].
  destruct (shr_fexp 53 1024 m1 e1 loc_Exact) as [mrs2 e2].
  cbn [fst snd] in He2, Hm2.
  assert (H107 : 2 ^ 107 = 2 * 2 ^ 106) by reflexivity.
  pose proof (@Zdigits2_bound m1 107 ltac:(lia) ltac:(lia)) as Hdm1.
  assert (Hdm10 : 0 <= Zdigits2 m1) by (destruct m1; cbn; lia).
  assert (He2b : e1 <= e2 <= 9) by (unfold fexp, emin in He2; lia).
  assert (Hp2 : 0 < 2 ^ (e2 - e1)) by (apply Z.pow_pos_nonneg; lia).
  destruct (shr_m mrs2) as [|m2|m2] eqn:Hm2e.
  - left. reflexivity.
  - right. exists m2, e2.
    replace (e2 <=? 1024 - 53) with true by (symmetry; apply Z.leb_le; lia).
    split; [reflexivity|]. split; [lia|].
    (* m2 * 2^(e2-e1) <= m1 and m1 <= M / 2^(e1-E) + 1 *)
    assert (H2 : Zpos m2 * 2 ^ (e2 - e1) <= m1).
    { rewrite Hm2. rewrite Z.mul_comm. apply Z.mul_div_le. exact Hp2. }
    assert (H1 : shr_m mrs1 * 2 ^ (e1 - E) <= Zpos M).
    { rewrite Hm1. rewrite Z.mul_comm. apply Z.mul_div_le. exact Hp1. }
    replace (e2 - E) with ((e2 - e1) + (e1 - E)) by lia.
    rewrite Z.pow_add_r by lia.
    assert (Hpow : 2 ^ (e1 - E) <= 2 ^ (-45 - E))
      by (apply Z.pow_le_mono_r; lia).
    nia.
  - exfalso.
    assert (0 <= m1 / 2 ^ (e2 - e1)) by (apply Z.div_pos; lia).
    lia.
Qed.

Lemma one_eq : one = S754_finite false 4503599627370496 (-52).
Proof. vm_compute. reflexivity. Qed.

Lemma hundred_eq : hundred = S754_finite false 7036874417766400 (-46).
Proof. vm_compute. reflexivity. Qed.

Lemma rounds_half_up_exists (M : Z) (k : positive) :
  rounds_half_up (M # 2 ^ k) ((2 * M + 2 ^ Zpos k) / (2 * 2 ^ Zpos k)).
Proof.
  assert (Hd : 0 < 2 ^ Zpos k) by (apply Z.pow_pos_nonneg; lia).
  pose proof (Z.div_mod (2 * M + 2 ^ Zpos k) (2 * 2 ^ Zpos k) ltac:(lia)) as Hdm.
  pose proof (Z.mod_pos_bound (2 * M + 2 ^ Zpos k) (2 * 2 ^ Zpos k) ltac:(lia))
    as Hb.
  unfold rounds_half_up, Qle, Qlt, Qminus, Qplus, Qopp, inject_Z.
  cbn [Qnum Qden]. rewrite Pos2Z.inj_pow.
  set (n := (2 * M + 2 ^ Zpos k) / (2 * 2 ^ Zpos k)) in *.
  set (D := 2 ^ Zpos k) in *.
  change (Zpos 2) with 2. nia.
Qed.

Lemma SFleb_finite (m c : positive) (e ec : Z) :
  SFleb (S754_finite false m e) (S754_finite false c ec) = true ->
  e < ec \/ (e = ec /\ Zpos m <= Zpos c).
Proof.
  unfold SFleb, SFcompare.
  destruct (Z.compare_spec e ec) as [Heq|Hlt|Hgt]; intros H.
  - right. split; [exact Heq|].
    rewrite Pos.compare_cont_spec in H. unfold Pos.switch_Eq in H.
    apply Pos2Z.pos_le_pos. unfold Pos.le.
    destruct (m ?= c)%positive; [discriminate | discriminate | discriminate H].
  - left. exact Hlt.
  - discriminate H.
Qed.

Lemma unit_interval_finite (s : bool) (m : positive) (e : Z) :
  in_unit_interval (S754_finite s m e) = true ->
  s = false /\ -1074 <= e <= -52 /\ Zpos m < 2 ^ 53 /\ Zpos m <= 2 ^ (- e).
Proof.
  unfold in_unit_interval. intros H.
  apply andb_prop in H. destruct H as [H Hle1].
  apply andb_prop in H. destruct H as [Hv Hle0].
  cbn [valid_binary] in Hv. unfold bounded, canonical_mantissa in Hv.
  apply andb_prop in Hv. destruct Hv as [Hc He].
  apply Z.eqb_eq in Hc. apply Z.leb_le in He.
  unfold fexp, emin in Hc.
  assert (Hs : s = false) by (destruct s; [discriminate Hle0|reflexivity]).
  subst s.
  assert (Hd : Zpos (digits2_pos m) <= 53) by lia.
  assert (Hm : Zpos m < 2 ^ 53).
  { rewrite digits2_pos_size in Hd.
    pose proof (Pos.size_gt m) as Hg.
    apply Pos2Z.pos_lt_pos in Hg. rewrite Pos2Z.inj_pow in Hg.
    eapply Z.lt_le_trans; [exact Hg|]. apply Z.pow_le_mono_r; lia. }
  rewrite one_eq in Hle1. apply SFleb_finite in Hle1.
  split; [reflexivity|].
  assert (H52 : 2 ^ 52 = 4503599627370496) by (vm_compute; reflexivity).
  destruct Hle1 as [Hlt | [Heq Hmc]].
  - split; [lia|]. split; [exact Hm|].
    eapply Z.le_trans; [apply Z.lt_le_incl; exact Hm|].
    apply Z.pow_le_mono_r; lia.
  - subst e. split; [lia|]. split; [exact Hm|].
    replace (- -52) with 52 by reflexivity. rewrite H52. exact Hmc.
Qed.

Lemma scaled_bound (v c A : Z) :
  0 < A ->
  v * (2 ^ 45 * A) <= c * (2 ^ 45 * A) + 2 * A ->
  v <= c.
Proof.
  intros HA H.
  assert (H45 : 2 ^ 45 = 35184372088832) by (vm_compute; reflexivity).
  rewrite H45 in H.
  destruct (Z.le_gt_cases v c) as [Hle|Hgt]; [exact Hle|]. exfalso.
  assert (0 <= (v - c - 1) * A) by (apply Z.mul_nonneg_nonneg; lia).
  lia.
Qed.

(** The product of a Number between 0 and 1 with 100: a zero, or a
    finite positive Number that exceeds 100 by less than 2^-45. *)
Lemma product_in_range (m : positive) (e : Z) :
  in_unit_interval (S754_finite false m e) = true ->
  Number_multiply (S754_finite false m e) hundred = S754_zero false
  \/ exists m2 e2,
       Number_multiply (S754_finite false m e) hundred
       = S754_finite false m2 e2
       /\ e - 46 <= e2 <= 9
       /\ Zpos m2 * 2 ^ (e2 - (e - 46))
          <= 100 * 2 ^ (- (e - 46)) + 2 ^ (-45 - (e - 46)).
Proof.
  intros Hx. apply unit_interval_finite in Hx.
  destruct Hx as [_ [He [Hm Hv]]].
  rewrite hundred_eq. unfold Number_multiply, SFmul. cbn [xorb].
  assert (Hh : Zpos 7036874417766400 = 100 * 2 ^ 46)
    by (vm_compute; reflexivity).
  assert (H53 : 2 ^ 106 = 2 ^ 53 * 2 ^ 53) by (vm_compute; reflexivity).
  assert (Hh53 : Zpos 7036874417766400 < 2 ^ 53) by (vm_compute; reflexivity).
  assert (HM : Zpos (m * 7036874417766400) < 2 ^ 106).
  { rewrite Pos2Z.inj_mul, H53.
    apply Z.mul_lt_mono_nonneg; lia. }
  replace (e + -46) with (e - 46) by lia.
  destruct (@binary_round_aux_small false (m * 7036874417766400) (e - 46) HM
              ltac:(lia)) as [Hz | [m2 [e2 [Hf [He2 Hb]]]]].
  - left. exact Hz.
  - right. exists m2, e2. split; [exact Hf|]. split; [exact He2|].
    eapply Z.le_trans; [exact Hb|]. apply Z.add_le_mono_r.
    rewrite Pos2Z.inj_mul, Hh.
    replace (- (e - 46)) with (- e + 46) by lia.
    rewrite Z.pow_add_r by lia.
    assert (0 < 2 ^ 46) by (apply Z.pow_pos_nonneg; lia).
    nia.
Qed.

Lemma rounds_half_up_refl (n : Z) : rounds_half_up (inject_Z n) n.
Proof.
  unfold rounds_half_up, Qle, Qlt, Qminus, Qplus, Qopp, inject_Z.
  cbn [Qnum Qden]. lia.
Qed.

(** For a Number between 0 and 1 the binary64 product rounds half up to
    an integer, and it is between 0 and 100. *)
Lemma unit_percent_exists (x : number) :
  in_unit_interval x = true ->
  exists n, 0 <= n <= 100 /\ binary64_percent (JNum x) n.
Proof.
  intros Hx. destruct x as [s|s| |s m e].
  - exists 0. split; [lia|].
    apply product_number with (y := 0%Q); [reflexivity|].
    apply (rounds_half_up_refl 0).
  - destruct s; discriminate Hx.
  - discriminate Hx.
  - pose proof (unit_interval_finite _ _ _ Hx) as [Hs [He _]]. subst s.
    destruct (product_in_range _ _ Hx) as [Hz | [m2 [e2 [Hf [He2 Hb]]]]].
    + exists 0. split; [lia|].
      apply product_number with (y := 0%Q); [rewrite Hz; reflexivity|].
      apply (rounds_half_up_refl 0).
    + set (E := e - 46) in *.
      assert (HA : 0 < 2 ^ (-45 - E)) by (apply Z.pow_pos_nonneg; lia).
      assert (HE : 2 ^ (- E) = 2 ^ 45 * 2 ^ (-45 - E)).
      { rewrite <- Z.pow_add_r by lia. f_equal. lia. }
      destruct e2 as [|q|k].
      * exists (Zpos m2 * 2 ^ 0). split.
        -- rewrite Z.pow_0_r, Z.mul_1_r. split; [lia|].
           apply scaled_bound with (A := 2 ^ (-45 - E)); [exact HA|].
           rewrite <- HE. replace (0 - E) with (- E) in Hb by lia. lia.
        -- apply product_number with (y := inject_Z (Zpos m2 * 2 ^ 0));
             [rewrite Hf; reflexivity | apply rounds_half_up_refl].
      * exists (Zpos m2 * 2 ^ Zpos q).
        assert (Hq : 0 < 2 ^ Zpos q) by (apply Z.pow_pos_nonneg; lia).
        split.
        -- split; [nia|].
           apply scaled_bound with (A := 2 ^ (-45 - E)); [exact HA|].
           rewrite <- HE.
           replace (Zpos q - E) with (Zpos q + - E) in Hb by lia.
           rewrite Z.pow_add_r in Hb by lia. lia.
        -- apply product_number with (y := inject_Z (Zpos m2 * 2 ^ Zpos q));
             [rewrite Hf; reflexivity | apply rounds_half_up_refl].
      * pose proof (rounds_half_up_exists (Zpos m2) k) as Hr.
        exists ((2 * Zpos m2 + 2 ^ Zpos k) / (2 * 2 ^ Zpos k)).
        split.
        -- pose proof (@rounds_half_up_dyadic _ _ _ Hr) as Hd.
           set (n := (2 * Zpos m2 + 2 ^ Zpos k) / (2 * 2 ^ Zpos k)) in *.
           assert (Hk : 0 < 2 ^ Zpos k) by (apply Z.pow_pos_nonneg; lia).
           assert (HB : 0 < 2 ^ (Zneg k - E)) by (apply Z.pow_pos_nonneg; lia).
           assert (HDB : 2 ^ Zpos k * 2 ^ (Zneg k - E) = 2 ^ (- E)).
           { rewrite <- Z.pow_add_r by lia. f_equal. lia. }
           split; [nia|].
           assert (H2n : 2 * n - 1 <= 200); [|lia].
           apply scaled_bound with (A := 2 ^ (-45 - E)); [exact HA|].
           rewrite <- HE, <- HDB.
           rewrite <- HDB in Hb. nia.
        -- apply product_number with (y := (Zpos m2 # 2 ^ k)%Q);
             [rewrite Hf; reflexivity | exact Hr].
Qed.

Local Close Scope Z_scope.

(* ===================================================================== *)
(** ** The binary64 product against the exact one *)
(* ===================================================================== *)

Local Open Scope Z_scope.

Lemma positive_below_digits (M : positive) : Zpos M < 2 ^ Zdigits2 (Zpos M).
Proof.
  cbn [Zdigits2]. rewrite digits2_pos_size.
  pose proof (Pos.size_gt M) as Hg.
  apply Pos2Z.pos_lt_pos in Hg. rewrite Pos2Z.inj_pow in Hg. exact Hg.
Qed.

(** The rounding step on a positive mantissa of at most 106 digits with
    an exponent between -1120 and -98: the result is the zero or the
    finite Number of a mantissa [r] and an exponent [e2], and its value
    is less than 2^-45 away from the exact one. *)
Lemma binary_round_aux_near (s : bool) (M : positive) (E : Z) :
  Zpos M < 2 ^ 106 -> -1120 <= E <= -98 ->
  exists r e2,
    binary_round_aux 53 1024 s (Zpos M) E loc_Exact
    = match r with
      | Zpos m2 => S754_finite s m2 e2
      | _ => S754_zero s
      end
    /\ 0 <= r
    /\ E <= e2 <= 9
    /\ Zpos M - 2 ^ (-45 - E) < r * 2 ^ (e2 - E) <= Zpos M + 2 ^ (-45 - E).
Proof.
  intros HM HE. unfold binary_round_aux.
  destruct (@shr_fexp_mantissa (Zpos M) E loc_Exact ltac:(lia)) as [He1 Hm1].
  destruct (shr_fexp 53 1024 (Zpos M) E loc_Exact) as [mrs1 e1].
  cbn [fst snd] in He1, Hm1.
  pose proof (@Zdigits2_bound (Zpos M) 106 ltac:(lia) ltac:(lia)) as HdM.
  assert (HdM0 : 0 <= Zdigits2 (Zpos M)) by (cbn; lia).
  pose proof (positive_below_digits M) as HMd.
  unfold fexp, emin in He1.
  assert (He1b : E <= e1 <= -45) by lia.
  assert (Hp1 : 0 < 2 ^ (e1 - E)) by (apply Z.pow_pos_nonneg; lia).
  assert (Hm53 : shr_m mrs1 < 2 ^ 53).
  { rewrite Hm1. apply Z.div_lt_upper_bound; [exact Hp1|].
    rewrite <- Z.pow_add_r by lia.
    eapply Z.lt_le_trans; [exact HMd|]. apply Z.pow_le_mono_r; lia. }
  assert (Hm1b : 0 <= shr_m mrs1) by (rewrite Hm1; apply Z.div_pos; lia).
  assert (Hlow : Zpos M - 2 ^ (e1 - E) < shr_m mrs1 * 2 ^ (e1 - E) <= Zpos M).
  { rewrite Hm1.
    pose proof (Z.div_mod (Zpos M) (2 ^ (e1 - E)) ltac:(lia)) as Hdm.
    pose proof (Z.mod_pos_bound (Zpos M) (2 ^ (e1 - E)) Hp1) as Hmb.
    nia. }
  pose proof (round_nearest_even_bounds (shr_m mrs1) (loc_of_shr_record mrs1))
    as Hr.
  set (m1 := round_nearest_even (shr_m mrs1) (loc_of_shr_record mrs1)) in *.
  destruct (@shr_fexp_mantissa m1 e1 loc_Exact ltac:(lia)) as [He2 Hm2].
  destruct (shr_fexp 53 1024 m1 e1 loc_Exact) as [mrs2 e2].
  cbn [fst snd] in He2, Hm2.
  unfold fexp, emin in He2.
  assert (H54 : 2 ^ 54 = 2 * 2 ^ 53) by reflexivity.
  assert (Hdm10 : 0 <= Zdigits2 m1) by (destruct m1; cbn; lia).
  assert (Hexact : e1 <= e2 <= -44 /\ shr_m mrs2 * 2 ^ (e2 - e1) = m1).
  { destruct (Z.lt_ge_cases m1 (2 ^ 53)) as [Hlt|Hge].
    - pose proof (@Zdigits2_bound m1 53 ltac:(lia) ltac:(lia)) as Hd.
      assert (Heq : e2 = e1) by lia.
      rewrite Hm2, Heq, Z.sub_diag, Z.pow_0_r, Z.div_1_r, Z.mul_1_r.
      split; [lia | reflexivity].
    - assert (Hm1e : m1 = 2 ^ 53) by lia.
      pose proof (@Zdigits2_bound m1 54 ltac:(lia) ltac:(lia)) as Hd.
      assert (Hk : e2 - e1 = 0 \/ e2 - e1 = 1) by lia.
      split; [lia|].
      rewrite Hm2, Hm1e. destruct Hk as [Hk|Hk]; rewrite Hk.
      + rewrite Z.pow_0_r, Z.div_1_r, Z.mul_1_r. reflexivity.
      + rewrite Z.pow_1_r.
        replace (2 ^ 53) with (2 ^ 52 * 2) by reflexivity.
        rewrite Z.div_mul by lia. reflexivity. }
  destruct Hexact as [He2b Hex].
  assert (Hp2 : 0 < 2 ^ (e2 - e1)) by (apply Z.pow_pos_nonneg; lia).
  assert (Hr0 : 0 <= shr_m mrs2) by nia.
  assert (Hpow : 2 ^ (e1 - E) <= 2 ^ (-45 - E))
    by (apply Z.pow_le_mono_r; lia).
  assert (Hval : Zpos M - 2 ^ (-45 - E) < shr_m mrs2 * 2 ^ (e2 - E)
                 <= Zpos M + 2 ^ (-45 - E)).
  { replace (e2 - E) with ((e2 - e1) + (e1 - E)) by lia.
    rewrite Z.pow_add_r by lia. rewrite Z.mul_assoc, Hex. nia. }
  exists (shr_m mrs2), e2.
  split; [|split; [exact Hr0 | split; [lia | exact Hval]]].
  destruct (shr_m mrs2) as [|m2|m2].
  - reflexivity.
  - replace (e2 <=? 1024 - 53) with true by (symmetry; apply Z.leb_le; lia).
    reflexivity.
  - lia.
Qed.

(** The product of a Number between 0 and 1 with 100 is less than 2^-45
    away from the exact product. *)
Lemma product_near (m : positive) (e : Z) :
  in_unit_interval (S754_finite false m e) = true ->
  exists r e2,
    Number_multiply (S754_finite false m e) hundred
    = match r with
      | Zpos m2 => S754_finite false m2 e2
      | _ => S754_zero false
      end
    /\ 0 <= r
    /\ e - 46 <= e2 <= 9
    /\ 100 * 2 ^ 46 * Zpos m - 2 ^ (-45 - (e - 46))
       < r * 2 ^ (e2 - (e - 46))
       <= 100 * 2 ^ 46 * Zpos m + 2 ^ (-45 - (e - 46)).
Proof.
  intros Hx. apply unit_interval_finite in Hx.
  destruct Hx as [_ [He [Hm Hv]]].
  rewrite hundred_eq. unfold Number_multiply, SFmul. cbn [xorb].
  assert (Hh : Zpos 7036874417766400 = 100 * 2 ^ 46)
    by (vm_compute; reflexivity).
  assert (H53 : 2 ^ 106 = 2 ^ 53 * 2 ^ 53) by (vm_compute; reflexivity).
  assert (Hh53 : Zpos 7036874417766400 < 2 ^ 53) by (vm_compute; reflexivity).
  assert (HM : Zpos (m * 7036874417766400) < 2 ^ 106).
  { rewrite Pos2Z.inj_mul, H53.
    apply Z.mul_lt_mono_nonneg; lia. }
  replace (e + -46) with (e - 46) by lia.
  destruct (@binary_round_aux_near false (m * 7036874417766400) (e - 46) HM
              ltac:(lia)) as [r [e2 [Hf [Hr [He2 Hb]]]]].
  exists r, e2. split; [exact Hf|]. split; [exact Hr|]. split; [exact He2|].
  rewrite Pos2Z.inj_mul, Hh in Hb.
  replace (100 * 2 ^ 46 * Zpos m) with (Zpos m * (100 * 2 ^ 46)) by lia.
  exact Hb.
Qed.

(** What rounding a finite positive Number half up says of its mantissa,
    scaled by a power of two that makes the value an integer. *)
Lemma rounds_half_up_scaled (m2 : positive) (e2 n B : Z) (y : Q) :
  number_Q (S754_finite false m2 e2) = Some y ->
  rounds_half_up y n ->
  0 <= B -> 0 <= e2 + B ->
  (2 * n - 1) * 2 ^ B <= 2 * (Zpos m2 * 2 ^ (e2 + B)) < (2 * n + 1) * 2 ^ B.
Proof.
  intros Hq Hr HB HeB.
  assert (HpB : 0 < 2 ^ B) by (apply Z.pow_pos_nonneg; lia).
  destruct e2 as [|p|k]; cbv beta iota delta [number_Q] in Hq;
    apply some_inj in Hq; subst y.
  - apply rounds_half_up_integer in Hr. cbn [cond_Zopp] in Hr.
    rewrite Z.pow_0_r, Z.mul_1_r in Hr. subst n.
    rewrite Z.add_0_l. nia.
  - apply rounds_half_up_integer in Hr. cbn [cond_Zopp] in Hr. subst n.
    rewrite Z.pow_add_r by lia.
    assert (0 < 2 ^ Zpos p) by (apply Z.pow_pos_nonneg; lia).
    nia.
  - apply rounds_half_up_dyadic in Hr. cbn [cond_Zopp] in Hr.
    assert (Hk : 0 < 2 ^ Zpos k) by (apply Z.pow_pos_nonneg; lia).
    assert (Hs : 0 < 2 ^ (Zneg k + B)) by (apply Z.pow_pos_nonneg; lia).
    assert (HBk : 2 ^ B = 2 ^ Zpos k * 2 ^ (Zneg k + B)).
    { rewrite <- Z.pow_add_r by lia. f_equal. lia. }
    rewrite HBk. nia.
Qed.

Lemma near_scaled (n m T Y K : Z) :
  (2 * n - 1) * (2 * K * T) <= 2 * Y < (2 * n + 1) * (2 * K * T) ->
  100 * (2 * K) * m - 2 * T < Y <= 100 * (2 * K) * m + 2 * T ->
  ((2 * n - 1) * K - 2) * T <= 200 * m * K
  /\ 200 * m * K < ((2 * n + 1) * K + 2) * T.
Proof. intros H1 H2. split; nia. Qed.

(** For a Number between 0 and 1, the percentage of the binary64 product
    is the one of the exact product, unless the exact product is within
    2^-45 of a half. *)
Lemma unit_percent_near (x : number) (n : Z) :
  in_unit_interval x = true ->
  binary64_percent (JNum x) n -> near_percent (JNum x) n.
Proof.
  intros Hx Hb. inversion Hb as [|x' y n' Hq Hr]; subst x' n'.
  destruct x as [s|s| |s m e].
  - destruct s; cbn in Hq; apply some_inj in Hq; subst y;
      apply (@rounds_half_up_integer 0) in Hr; subst n;
      apply near_number with (q := 0%Q); try reflexivity;
      unfold Qle, Qlt; cbn; lia.
  - destruct s; discriminate Hx.
  - discriminate Hx.
  - pose proof (unit_interval_finite _ _ _ Hx) as [Hs [He _]]. subst s.
    destruct (product_near _ _ Hx) as [r [e2 [Hf [Hr0 [He2 Hbd]]]]].
    destruct e as [|p|k]; try lia.
    assert (HT : 0 < 2 ^ Zpos k) by (apply Z.pow_pos_nonneg; lia).
    assert (H46 : 2 ^ 46 = 2 * 2 ^ 45) by reflexivity.
    assert (HA : 2 ^ (-45 - (Zneg k - 46)) = 2 * 2 ^ Zpos k).
    { replace (-45 - (Zneg k - 46)) with (1 + Zpos k) by lia.
      rewrite Z.pow_add_r by lia. reflexivity. }
    assert (HB : 2 ^ (Zpos k + 46) = 2 * 2 ^ 45 * 2 ^ Zpos k).
    { rewrite Z.pow_add_r by lia. rewrite H46. lia. }
    rewrite HA, H46 in Hbd.
    assert (Hcore :
      ((2 * n - 1) * 2 ^ 45 - 2) * 2 ^ Zpos k <= 200 * Zpos m * 2 ^ 45
      /\ 200 * Zpos m * 2 ^ 45 < ((2 * n + 1) * 2 ^ 45 + 2) * 2 ^ Zpos k).
    { rewrite Hf in Hq. destruct r as [|m2|m2]; [| |lia].
      - cbn in Hq. apply some_inj in Hq. subst y.
        apply (@rounds_half_up_integer 0) in Hr. subst n.
        apply near_scaled with (Y := 0); [nia | lia].
      - pose proof (@rounds_half_up_scaled m2 e2 n (Zpos k + 46) y Hq Hr
                      ltac:(lia) ltac:(lia)) as Hs.
        replace (e2 - (Zneg k - 46)) with (e2 + (Zpos k + 46)) in Hbd by lia.
        rewrite HB in Hs.
        apply near_scaled with (Y := Zpos m2 * 2 ^ (e2 + (Zpos k + 46)));
          [exact Hs | exact Hbd]. }
    destruct Hcore as [Hlo Hhi].
    apply near_number with (q := (Zpos m # 2 ^ k)%Q); [reflexivity| |].
    + unfold Qle, Qminus, Qplus, Qopp, Qmult, inject_Z. cbn [Qnum Qden].
      rewrite !Pos2Z.inj_mul, !Pos2Z.inj_pow.
      set (K := 2 ^ 45) in *. set (T := 2 ^ Zpos k) in *. lia.
    + unfold Qlt, Qminus, Qplus, Qopp, Qmult, inject_Z. cbn [Qnum Qden].
      rewrite !Pos2Z.inj_mul, !Pos2Z.inj_pow.
      set (K := 2 ^ 45) in *. set (T := 2 ^ Zpos k) in *. lia.
Qed.

Local Close Scope Z_scope.

(* ===================================================================== *)
(** ** The percentage of a result entry *)
(* ===================================================================== *)

Section Percentage.

Variable StringToNumber : jsstring -> number.
Variable ObjectToNumber : value -> number.
Variable Number_toString_other : number -> jsstring.

(** What is written for a finite product [p] is the integer [p] rounds
    half up to. *)
Lemma rounded_product_shown (p : number) (y : Q) (n : Z) :
  number_Q p = Some y -> rounds_half_up y n -> (Z.abs n < 2 ^ 53)%Z ->
  Number_toString Number_toString_other (Math_round p) = Z_toString n.
Proof.
  intros Hq Hr Hn.
  destruct p as [s| |  |s m e]; try discriminate Hq.
  - injection Hq as <-. apply (@rounds_half_up_integer 0%Z) in Hr. subst n.
    reflexivity.
  - destruct e as [|e|k]; cbv beta iota delta [number_Q] in Hq;
      apply some_inj in Hq; subst y.
    + apply rounds_half_up_integer in Hr. subst n. cbv beta iota delta [Math_round].
      apply Number_toString_integral; [reflexivity | lia |].
      apply cond_Zopp_sign. lia.
    + apply rounds_half_up_integer in Hr. subst n. cbv beta iota delta [Math_round].
      apply Number_toString_integral; [reflexivity | lia |].
      apply cond_Zopp_sign.
      apply Z.mul_pos_pos; [lia | apply Z.pow_pos_nonneg; lia].
    + assert (Hd : (0 < 2 ^ Zpos k)%Z) by (apply Z.pow_pos_nonneg; lia).
      cbv beta iota zeta delta [Math_round].
      destruct (Zpos m mod 2 ^ Zpos k =? 0)%Z eqn:Hmod.
      * apply Z.eqb_eq in Hmod.
        pose proof (Z.div_mod (Zpos m) (2 ^ Zpos k) ltac:(lia)) as Hdm.
        rewrite Hmod, Z.add_0_r in Hdm.
        apply rounds_half_up_dyadic in Hr.
        assert (Hq0 : (0 < Zpos m / 2 ^ Zpos k)%Z) by nia.
        assert (Hnq : n = cond_Zopp s (Zpos m / 2 ^ Zpos k)).
        { destruct s; cbn [cond_Zopp] in *; nia. }
        apply Number_toString_integral.
        -- cbn [integral_value].
           replace (Zpos m mod 2 ^ Zpos k =? 0)%Z with true
             by (symmetry; apply Z.eqb_eq; exact Hmod).
           rewrite Hnq. reflexivity.
        -- lia.
        -- rewrite Hnq. apply cond_Zopp_sign. exact Hq0.
      * rewrite <- (@rounds_half_up_floor _ _ _ Hr).
        destruct (n =? 0)%Z eqn:Hn0.
        -- apply Z.eqb_eq in Hn0. subst n. reflexivity.
        -- apply Z.eqb_neq in Hn0.
           apply Number_toString_of_Z; assumption.
Qed.

(** The percentage written is the integer the binary64 product rounds
    half up to, whenever that is below 2^53 in magnitude. *)
Lemma confidence_percent_spec (r c : value) (n : Z) :
  Get r (lit "confidence") = inr c ->
  binary64_percent c n ->
  (Z.abs n < 2 ^ 53)%Z ->
  confidence_percent StringToNumber ObjectToNumber Number_toString_other r
  = inr (Z_toString n ++ lit "%").
Proof.
  intros Hget Hspec Hn. unfold confidence_percent. rewrite Hget.
  f_equal. f_equal.
  destruct Hspec as [|x y n Hq Hr]; [reflexivity|].
  destruct x as [s|s| |s m e].
  - injection Hq as <-. apply (@rounds_half_up_integer 0%Z) in Hr. subst n.
    reflexivity.
  - discriminate Hq.
  - discriminate Hq.
  - change (Number_toString Number_toString_other
              (Math_round (Number_multiply (S754_finite s m e) hundred))
            = Z_toString n).
    apply rounded_product_shown with (y := y); assumption.
Qed.

(** C9, amended. For a result entry of the wire contract (the
    confidence is absent, or a number between 0 and 1) the percentage
    written is 0 when the confidence is absent, and otherwise the integer
    that the binary64 product of the confidence with 100 rounds half up
    to. It is the integer the exact product rounds half up to unless the
    exact product is within 2^-45 of a half; it is between 0 and 100 and
    is followed by the percent sign. *)
Theorem confidence_percent_rounded (r c : value) :
  Get r (lit "confidence") = inr c ->
  contract_confidence c ->
  exists n : Z,
    (0 <= n <= 100)%Z
    /\ binary64_percent c n
    /\ near_percent c n
    /\ confidence_percent StringToNumber ObjectToNumber
         Number_toString_other r
       = inr (Z_toString n ++ lit "%").
Proof.
  intros Hget Hc.
  assert (Hn : exists n : Z,
             (0 <= n <= 100)%Z /\ binary64_percent c n /\ near_percent c n).
  { destruct Hc as [|x Hx].
    - exists 0%Z. split; [lia|]. split; constructor.
    - destruct (unit_percent_exists x Hx) as [n [Hb Hs]].
      exists n. split; [exact Hb|]. split; [exact Hs|].
      apply unit_percent_near; assumption. }
  destruct Hn as [n [Hb [Hs Hnear]]]. exists n.
  split; [exact Hb|]. split; [exact Hs|]. split; [exact Hnear|].
  apply confidence_percent_spec with (c := c); [exact Hget | exact Hs |].
  assert (H53 : (100 < 2 ^ 53)%Z) by reflexivity. lia.
Qed.

End Percentage.

Lemma confidence_percent_rounded_witness :
  exists n : Z,
    (0 <= n <= 100)%Z
    /\ binary64_percent (JNum n0_666) n
    /\ near_percent (JNum n0_666) n
    /\ confidence_percent (fun _ => S754_nan) (fun _ => S754_nan)
         (fun _ => lit "")
         (JObj [(lit "disease", JStr (lit "flu"));
                (lit "confidence", JNum n0_666)])
       = inr (Z_toString n ++ lit "%").
Proof.
  apply (@confidence_percent_rounded (fun _ => S754_nan) (fun _ => S754_nan)
           (fun _ => lit "")
           (JObj [(lit "disease", JStr (lit "flu"));
                  (lit "confidence", JNum n0_666)])
           (JNum n0_666)).
  - reflexivity.
  - apply confidence_number. vm_compute. reflexivity.
Defined.

Lemma exact_percent_0_015 (n : Z) :
  rounds_half_up ((8646911284551352 # 2 ^ 59) * 100)%Q n -> n = 1%Z.
Proof.
  unfold rounds_half_up, Qle, Qlt, Qminus, Qplus, Qopp, Qmult, inject_Z.
  cbn [Qnum Qden]. rewrite !Pos2Z.inj_mul, !Pos2Z.inj_pow.
  assert (H59 : (2 ^ 59 = 576460752303423488)%Z) by (vm_compute; reflexivity).
  rewrite H59. lia.
Qed.

(** The statement of the specification, with the confidence times 100 as
    the exact product, fails on the Number nearest to 0.015: the exact
    product is below 3/2 and rounds half up to 1, while the binary64
    product is 3/2 and "2%" is written. *)
Lemma exact_product_counterexample :
  ~ (forall (StringToNumber : jsstring -> number)
            (ObjectToNumber : value -> number)
            (Number_toString_other : number -> jsstring) (r c : value),
        Get r (lit "confidence") = inr c ->
        contract_confidence c ->
        exists n : Z,
          spec_percent c n
          /\ confidence_percent StringToNumber ObjectToNumber
               Number_toString_other r
             = inr (Z_toString n ++ lit "%")).
Proof.
  intros H.
  destruct (H (fun _ => S754_nan) (fun _ => S754_nan) (fun _ => lit "")
              (JObj [(lit "confidence", JNum n0_015)]) (JNum n0_015))
    as [n [Hs Ht]].
  - reflexivity.
  - apply confidence_number. vm_compute. reflexivity.
  - inversion Hs as [|x q n' Hq Hr]. subst x n'.
    unfold n0_015 in Hq. cbv beta iota delta [number_Q] in Hq.
    apply some_inj in Hq. subst q. cbn [cond_Zopp] in Hr.
    apply exact_percent_0_015 in Hr. subst n.
    vm_compute in Ht. discriminate Ht.
Qed.

(** The Number nearest to 0.666 is written as "67%", and 67 is the
    integer both the exact and the binary64 product round half up to. *)
Lemma confidence_0_666 :
  spec_percent (JNum n0_666) 67
  /\ binary64_percent (JNum n0_666) 67
  /\ confidence_percent (fun _ => S754_nan) (fun _ => S754_nan)
       (fun _ => lit "")
       (JObj [(lit "disease", JStr (lit "flu"));
              (lit "confidence", JNum n0_666)])
     = inr (lit "67%").
Proof.
  split; [|split; [|reflexivity]].
  - apply percent_number with (q := (5998794703657501 # 2 ^ 53)%Q).
    + reflexivity.
    + unfold rounds_half_up, Qle, Qlt. cbn. split; lia.
  - apply product_number with (y := (4686558362232423 # 2 ^ 46)%Q).
    + reflexivity.
    + unfold rounds_half_up, Qle, Qlt. cbn. split; lia.
Qed.

(** An entry without a confidence field is written as "0%". *)
Lemma confidence_absent_zero :
  confidence_percent (fun _ => S754_nan) (fun _ => S754_nan) (fun _ => lit "")
    (JObj [(lit "disease", JStr (lit "flu"))])
  = inr (lit "0%").
Proof. reflexivity. Qed.

(** The product is the binary64 one: for the Number nearest to 0.285 the
    product with 100 is below 28.5 and "28%" is written, and for the
    Number nearest to 0.015 the product is 1.5 and "2%" is written. *)
Lemma confidence_product_binary64 :
  confidence_percent (fun _ => S754_nan) (fun _ => S754_nan) (fun _ => lit "")
    (JObj [(lit "confidence", JNum (S754_finite false 5134103575202365 (-54)))])
  = inr (lit "28%")
  /\ confidence_percent (fun _ => S754_nan) (fun _ => S754_nan)
       (fun _ => lit "")
       (JObj [(lit "confidence",
               JNum (S754_finite false 8646911284551352 (-59)))])
     = inr (lit "2%").
Proof. split; reflexivity. Qed.

(* ===================================================================== *)
(** ** Submit: what a run leaves behind *)
(* ===================================================================== *)

(** X1. A Submit starts by clearing the error and the results: whatever
    error and results the view held before, the error and the results it
    holds afterwards depend only on the input and on how the request
    ends; in both copies. *)
Theorem submit_clears_previous (REACT_APP_API_URL : option jsstring)
  (global_s : option value) (st1 st2 : View) (net : settle Response) :
  symptoms st1 = symptoms st2 ->
  (error (final_view st1 (Local.handleDiagnose st1 net))
   = error (final_view st2 (Local.handleDiagnose st2 net))
   /\ results (final_view st1 (Local.handleDiagnose st1 net))
      = results (final_view st2 (Local.handleDiagnose st2 net)))
  /\ (error (final_view st1
               (Configurable.handleDiagnose REACT_APP_API_URL global_s
                  st1 net))
      = error (final_view st2
                 (Configurable.handleDiagnose REACT_APP_API_URL global_s
                    st2 net))
      /\ results (final_view st1
                    (Configurable.handleDiagnose REACT_APP_API_URL global_s
                       st1 net))
         = results (final_view st2
                      (Configurable.handleDiagnose REACT_APP_API_URL
                         global_s st2 net))).
Proof.
  intros Hs. unfold_handlers. rewrite Hs.
  destruct (tokenize (symptoms st2)) as [|t ts].
  - destruct global_s; repeat split.
  - destruct net as [resp|e|]; run_cases; repeat split.
Qed.

Lemma submit_clears_previous_witness :
  results (final_view (view_with "fever")
             (Local.handleDiagnose (view_with "fever") NeverSettles))
  = results (final_view initial_view_fever
               (Local.handleDiagnose initial_view_fever NeverSettles)).
Proof.
  destruct (@submit_clears_previous None None (view_with "fever")
              initial_view_fever NeverSettles) as [[_ H] _].
  - reflexivity.
  - exact H.
Defined.

Lemma logical_or_truthy (a b : value) :
  ToBoolean b = true -> ToBoolean (logical_or a b) = true.
Proof.
  intros Hb. unfold logical_or. destruct (ToBoolean a) eqn:Ha; assumption.
Qed.

(** X2. After a Submit, however it ends, the view never holds an error
    together with results: the error is the empty string or the result
    set is the empty array; and an error that is not the empty string is
    truthy, so the guard [error && ...] never leaves a falsy value other
    than the empty string to be written; in both copies. *)
Theorem error_results_exclusive (REACT_APP_API_URL : option jsstring)
  (global_s : option value) (st : View) (net : settle Response) :
  ((error (final_view st (Local.handleDiagnose st net)) = JStr (lit "")
    \/ results (final_view st (Local.handleDiagnose st net)) = JArr [])
   /\ (error (final_view st (Local.handleDiagnose st net)) = JStr (lit "")
       \/ ToBoolean (error (final_view st (Local.handleDiagnose st net)))
          = true))
  /\ ((error (final_view st
                (Configurable.handleDiagnose REACT_APP_API_URL global_s
                   st net)) = JStr (lit "")
       \/ results (final_view st
                     (Configurable.handleDiagnose REACT_APP_API_URL global_s
                        st net)) = JArr [])
      /\ (error (final_view st
                   (Configurable.handleDiagnose REACT_APP_API_URL global_s
                      st net)) = JStr (lit "")
          \/ ToBoolean
               (error (final_view st
                         (Configurable.handleDiagnose REACT_APP_API_URL
                            global_s st net)))
             = true)).
Proof.
  unfold_handlers.
  destruct (tokenize (symptoms st)) as [|t ts].
  - destruct global_s; repeat split; right; reflexivity.
  - destruct net as [resp|e|]; run_cases; repeat split;
      first [ left; reflexivity | right; reflexivity
            | right; apply logical_or_truthy; reflexivity ].
Qed.

(** X3. A Submit reads the response body at most once and in one way
    only: as JSON when the status is a success status, as text when it is
    not, and not at all when the input has no token or the call fails or
    never settles; in both copies. *)
Theorem body_read_once (REACT_APP_API_URL : option jsstring)
  (global_s : option value) (st : View) (net : settle Response) :
  body_reads (trace (Local.handleDiagnose st net))
  = match tokenize (symptoms st), net with
    | _ :: _, Fulfilled resp => if ok resp then [ReadJson] else [ReadText]
    | _, _ => []
    end
  /\ body_reads
       (trace (Configurable.handleDiagnose REACT_APP_API_URL global_s st net))
     = match tokenize (symptoms st), net with
       | _ :: _, Fulfilled resp => if ok resp then [ReadJson] else [ReadText]
       | _, _ => []
       end.
Proof.
  unfold_handlers.
  destruct (tokenize (symptoms st)) as [|t ts].
  - destruct global_s; split; reflexivity.
  - destruct net as [resp|e|]; run_cases; split; reflexivity.
Qed.

(** X4. A success response whose body parses to something that is not an
    object: for null (reading [results] from it throws inside the [try]
    block) the view is the one of a failed request; for a boolean, a
    number, a string or an array the error is "No results returned" and
    the result set is empty; in both copies. *)
Theorem non_object_body (REACT_APP_API_URL : option jsstring)
  (global_s : option value) (st : View) (resp : Response) (data : value) :
  tokenize (symptoms st) <> [] ->
  ok resp = true ->
  json resp = Fulfilled data ->
  is_object data = false ->
  final_view st (Local.handleDiagnose st (Fulfilled resp))
  = (if is_nullish data then failure_view st else no_results_view st)
  /\ final_view st
       (Configurable.handleDiagnose REACT_APP_API_URL global_s st
          (Fulfilled resp))
     = (if is_nullish data then failure_view st else no_results_view st).
Proof.
  intros Htok Hok Hjson Hobj.
  unfold failure_view, no_results_view. unfold_handlers.
  destruct (tokenize (symptoms st)) as [|t ts]; [contradiction|].
  cbn. rewrite Hok, Hjson.
  destruct data; try discriminate Hobj; split; reflexivity.
Qed.

Lemma non_object_body_witness :
  final_view (view_with "fever")
    (Local.handleDiagnose (view_with "fever")
       (Fulfilled (json_response (JArr [common_cold]))))
  = no_results_view (view_with "fever")
  /\ final_view (view_with "fever")
       (Configurable.handleDiagnose None None (view_with "fever")
          (Fulfilled (json_response JNull)))
     = failure_view (view_with "fever").
Proof.
  split.
  - apply (@non_object_body None None (view_with "fever")
             (json_response (JArr [common_cold])) (JArr [common_cold]));
      try reflexivity.
    vm_compute. discriminate.
  - apply (@non_object_body None None (view_with "fever")
             (json_response JNull) JNull); try reflexivity.
    vm_compute. discriminate.
Defined.

(** X5. The console is written to only when the request fails: a run
    that writes to the console writes once, under the label
    "Diagnosis request failed:", and leaves the view of a failed request;
    in both copies. *)
Theorem console_only_on_failure (REACT_APP_API_URL : option jsstring)
  (global_s : option value) (st : View) (net : settle Response)
  (label : jsstring) (e : thrown) :
  (In (ConsoleError label e) (trace (Local.handleDiagnose st net)) ->
   label = lit "Diagnosis request failed:"
   /\ console_writes (trace (Local.handleDiagnose st net))
      = [ConsoleError label e]
   /\ final_view st (Local.handleDiagnose st net) = failure_view st)
  /\ (In (ConsoleError label e)
        (trace (Configurable.handleDiagnose REACT_APP_API_URL global_s st net))
      ->
      label = lit "Diagnosis request failed:"
      /\ console_writes
           (trace
              (Configurable.handleDiagnose REACT_APP_API_URL global_s st net))
         = [ConsoleError label e]
      /\ final_view st
           (Configurable.handleDiagnose REACT_APP_API_URL global_s st net)
         = failure_view st).
Proof.
  unfold failure_view. unfold_handlers.
  destruct (tokenize (symptoms st)) as [|t ts].
  - destruct global_s; split; intros H; cbn in H;
      repeat (destruct H as [H|H]; [discriminate H|]); contradiction.
  - destruct net as [resp|e'|]; run_cases; split; intros H; cbn in H;
      repeat (destruct H as [H|H];
              [first [discriminate H
                     | injection H as <- <-; repeat split]|]);
      try contradiction.
Qed.

Lemma console_only_on_failure_witness :
  console_writes
    (trace
       (Local.handleDiagnose (view_with "fever")
          (Rejected (ErrorObject "TypeError" (lit "Failed to fetch")))))
  = [ConsoleError (lit "Diagnosis request failed:")
       (ErrorObject "TypeError" (lit "Failed to fetch"))].
Proof.
  destruct (@console_only_on_failure None None (view_with "fever")
              (Rejected (ErrorObject "TypeError" (lit "Failed to fetch")))
              (lit "Diagnosis request failed:")
              (ErrorObject "TypeError" (lit "Failed to fetch")))
    as [H _].
  destruct H as [_ [H _]].
  - vm_compute. auto 10.
  - exact H.
Defined.

(** X6. The promise of the handler with the fixed base address never
    rejects: a run returns or stays suspended, every exception being
    caught. In the copy with the configurable base address the only
    rejection is the ReferenceError of the stray identifier [s], on an
    input without tokens when the global scope does not bind [s]. *)
Theorem handler_never_rejects (REACT_APP_API_URL : option jsstring)
  (global_s : option value) (st : View) (net : settle Response) :
  (outcome (Local.handleDiagnose st net) = Normal tt
   \/ outcome (Local.handleDiagnose st net) = Suspended)
  /\ (outcome (Configurable.handleDiagnose REACT_APP_API_URL global_s st net)
      = Normal tt
      \/ outcome
           (Configurable.handleDiagnose REACT_APP_API_URL global_s st net)
         = Suspended
      \/ (outcome
            (Configurable.handleDiagnose REACT_APP_API_URL global_s st net)
          = Abrupt (ErrorObject "ReferenceError" (lit "s is not defined"))
          /\ tokenize (symptoms st) = []
          /\ global_s = None)).
Proof.
  unfold_handlers.
  destruct (tokenize (symptoms st)) as [|t ts].
  - destruct global_s; split;
      first [ left; reflexivity
            | right; right; repeat split ].
  - destruct net as [resp|e|]; run_cases; split;
      first [ left; reflexivity | right; left; reflexivity
            | right; reflexivity ].
Qed.

(** X7. An input without tokens still clears the results of an earlier
    Submit, and leaves loading as it was: no loading update is performed;
    in both copies. *)
Theorem validation_keeps_loading (REACT_APP_API_URL : option jsstring)
  (global_s : option value) (st : View) (net : settle Response) :
  tokenize (symptoms st) = [] ->
  (final_view st (Local.handleDiagnose st net) = validation_view st
   /\ filter is_loading_update (trace (Local.handleDiagnose st net)) = [])
  /\ (final_view st
        (Configurable.handleDiagnose REACT_APP_API_URL global_s st net)
      = validation_view st
      /\ filter is_loading_update
           (trace
              (Configurable.handleDiagnose REACT_APP_API_URL global_s st net))
         = []).
Proof.
  intros H. unfold validation_view. unfold_handlers. rewrite H.
  destruct global_s; repeat split.
Qed.

Lemma validation_keeps_loading_witness :
  loading
    (final_view
       {| symptoms := lit ", ,"; results := JArr [common_cold];
          loading := true; error := JStr (lit "") |}
       (Local.handleDiagnose
          {| symptoms := lit ", ,"; results := JArr [common_cold];
             loading := true; error := JStr (lit "") |} NeverSettles))
  = true.
Proof.
  destruct (@validation_keeps_loading None None
              {| symptoms := lit ", ,"; results := JArr [common_cold];
                 loading := true; error := JStr (lit "") |} NeverSettles)
    as [[H _] _].
  - vm_compute. reflexivity.
  - rewrite H. reflexivity.
Defined.

(** X8. Submitting again changes nothing: with the same input and the
    same end of the request, a second Submit leaves the view as the first
    one left it; in both copies. *)
Theorem submit_idempotent (REACT_APP_API_URL : option jsstring)
  (global_s : option value) (st : View) (net : settle Response) :
  final_view (final_view st (Local.handleDiagnose st net))
    (Local.handleDiagnose (final_view st (Local.handleDiagnose st net)) net)
  = final_view st (Local.handleDiagnose st net)
  /\ final_view
       (final_view st
          (Configurable.handleDiagnose REACT_APP_API_URL global_s st net))
       (Configurable.handleDiagnose REACT_APP_API_URL global_s
          (final_view st
             (Configurable.handleDiagnose REACT_APP_API_URL global_s st net))
          net)
     = final_view st
         (Configurable.handleDiagnose REACT_APP_API_URL global_s st net).
Proof.
  unfold_handlers.
  destruct (tokenize (symptoms st)) as [|t ts] eqn:Htok.
  - destruct global_s; cbn; rewrite Htok; split; reflexivity.
  - destruct net as [resp|e|]; run_cases; rewrite ?Htok; run_cases;
      split; reflexivity.
Qed.

(* ===================================================================== *)
(** ** More on the token expression *)
(* ===================================================================== *)

Lemma words_nil (s : jsstring) :
  forall cur,
    match words cur s with [] => true | _ :: _ => false end
    = match cur with [] => true | _ :: _ => false end
      && forallb is_separator s.
Proof.
  induction s as [|c s IH]; intros cur; cbn [words forallb].
  - unfold close_token. destruct cur; reflexivity.
  - destruct (is_separator c) eqn:Hc; cbn [andb].
    + unfold close_token. destruct cur as [|a cur]; cbn [String_truthy app].
      * apply IH.
      * reflexivity.
    + rewrite IH. destruct cur; reflexivity.
Qed.

(** X9. The input is rejected exactly when it holds nothing but
    whitespace and commas: the token list is empty if and only if every
    code unit of the input is a separator (the empty input included). *)
Theorem no_token_iff_only_separators (s : jsstring) :
  match tokenize s with [] => true | _ :: _ => false end
  = forallb is_separator s.
Proof. rewrite tokenize_words. apply (words_nil s []). Qed.

Lemma spec_pieces_clean (s : jsstring) :
  forall run cur,
    clean cur = true ->
    Forall (fun t => clean t = true) (spec_pieces run cur s).
Proof.
  induction s as [|c s IH]; intros run cur Hcur; cbn [spec_pieces].
  - constructor; [exact Hcur | constructor].
  - destruct (classify c) as [k|] eqn:Hk.
    + destruct (continues run k).
      * apply IH, Hcur.
      * constructor; [exact Hcur | apply IH; reflexivity].
    + apply IH, clean_snoc; [exact Hcur|].
      rewrite classify_separator, Hk. reflexivity.
Qed.

(** X10. The pieces [split] gives hold no whitespace and no comma, so
    the [trim] of the token expression changes none of them: the tokens
    are the non-empty pieces of the split. *)
Theorem trim_changes_no_piece (s : jsstring) :
  map String_trim (String_split separator_regex s)
  = String_split separator_regex s
  /\ tokenize s = filter String_truthy (String_split separator_regex s).
Proof.
  assert (H : map String_trim (String_split separator_regex s)
              = String_split separator_regex s).
  { rewrite String_split_spec. unfold spec_split.
    pose proof (@spec_pieces_clean s None [] eq_refl) as Hc.
    induction Hc as [|t l Ht Hl IH]; [reflexivity|].
    cbn [map]. rewrite IH, (String_trim_clean _ Ht). reflexivity. }
  split; [exact H|]. unfold tokenize. rewrite H. reflexivity.
Qed.

Lemma words_count (s : jsstring) :
  forall cur,
    2 * length (words cur s)
    <= length s + 1 + (if String_truthy cur then 1 else 0).
Proof.
  induction s as [|c s IH]; intros cur; cbn [words length].
  - unfold close_token. destruct (String_truthy cur); simpl; lia.
  - destruct (is_separator c).
    + rewrite length_app. specialize (IH []). cbn [String_truthy] in IH.
      unfold close_token. destruct (String_truthy cur); simpl length; lia.
    + specialize (IH (cur ++ [c])).
      replace (String_truthy (cur ++ [c])) with true in IH
        by (destruct cur; reflexivity).
      destruct (String_truthy cur); lia.
Qed.

(** X11. The request is bounded by the input: a text of [n] code units
    gives at most [(n + 1) / 2] tokens, and the tokens together are no
    longer than the text. *)
Theorem token_count_bound (s : jsstring) :
  2 * length (tokenize s) <= length s + 1
  /\ length (concat (tokenize s)) <= length s.
Proof.
  rewrite tokenize_words. split.
  - pose proof (words_count s []) as H. cbn [String_truthy] in H. lia.
  - rewrite words_concat. cbn [app]. apply filter_length_le.
Qed.

(** X12. No token holds a whitespace code unit or a comma, and no token
    is empty: what is sent needs no further splitting. *)
Theorem tokens_hold_no_separator (s : jsstring) :
  Forall (fun t => String_truthy t = true
                   /\ existsb is_separator t = false)
    (tokenize s).
Proof.
  eapply Forall_impl; [|apply tokenize_token_ok].
  intros t [Hne Hc]. split.
  - destruct t; [contradiction|reflexivity].
  - unfold clean in Hc. clear Hne.
    induction t as [|c t IH]; [reflexivity|].
    cbn [forallb existsb] in *. apply andb_prop in Hc. destruct Hc as [H1 H2].
    apply negb_true_iff in H1. rewrite H1. cbn [orb]. apply IH, H2.
Qed.

(* ===================================================================== *)
(** ** Replacing every match of a character class *)
(* ===================================================================== *)

Lemma match_length_class (p : code_unit -> bool) (s : jsstring) :
  match_length (Class p) s
  = match s with
    | c :: _ => if p c then Some 1 else None
    | [] => None
    end.
Proof.
  unfold match_length. destruct s as [|c s]; [reflexivity|].
  cbn [rmatch]. destruct (p c); [|reflexivity].
  f_equal. cbn [length]. lia.
Qed.

Lemma search_class (p : code_unit -> bool) (s : jsstring) :
  forall i,
    search (Class p) s i
    = match first_index p s with
      | Some k => Some (i + k, 1)
      | None => None
      end.
Proof.
  induction s as [|c s IH]; intros i.
  - reflexivity.
  - cbn [search first_index]. rewrite match_length_class.
    destruct (p c).
    + rewrite Nat.add_0_r. reflexivity.
    + rewrite IH. destruct (first_index p s) as [k|]; [|reflexivity].
      replace (S i + k) with (i + S k) by lia. reflexivity.
Qed.

Lemma first_index_none (p : code_unit -> bool) (replacement : jsstring)
  (s : jsstring) :
  first_index p s = None ->
  flat_map (fun c => if p c then replacement else [c]) s = s.
Proof.
  induction s as [|c s IH]; [reflexivity|].
  cbn [first_index flat_map]. destruct (p c); [discriminate|].
  destruct (first_index p s); [discriminate|].
  intros _. rewrite IH by reflexivity. reflexivity.
Qed.

Lemma first_index_some (p : code_unit -> bool) (replacement : jsstring)
  (s : jsstring) :
  forall k,
    first_index p s = Some k ->
    k < length s
    /\ flat_map (fun c => if p c then replacement else [c]) s
       = firstn k s ++ replacement
         ++ flat_map (fun c => if p c then replacement else [c])
              (skipn (S k) s).
Proof.
  induction s as [|c s IH]; intros k; [discriminate|].
  cbn [first_index]. destruct (p c) eqn:Hc.
  - intros H. injection H as <-. cbn [length firstn skipn flat_map app].
    rewrite Hc. split; [lia | reflexivity].
  - destruct (first_index p s) as [j|]; [|discriminate].
    intros H. injection H as <-.
    destruct (IH j eq_refl) as [Hj Hm].
    cbn [length firstn flat_map app]. rewrite Hc. split; [lia|].
    change (skipn (S (S j)) (c :: s)) with (skipn (S j) s).
    rewrite Hm. reflexivity.
Qed.

Lemma collect_matches_step (R : regex) (str : jsstring) (lastIndex : nat) :
  collect_matches R str lastIndex
  = match RegExp_exec R str lastIndex with
    | None => []
    | Some (pos, len) =>
        (pos, len)
        :: collect_matches R str
             (if len =? 0 then pos + len + 1 else pos + len)
    end.
Proof.
  rewrite collect_matches_equation_1.
  destruct (inspect (RegExp_exec R str lastIndex)) as [[[pos len]|] H].
  - rewrite collect_matches_clause_1_equation_1, H. reflexivity.
  - rewrite collect_matches_clause_1_equation_2, H. reflexivity.
Qed.

Lemma firstn_skipn_all (s : jsstring) (i : nat) :
  i <= length s -> substring s i (length s) = skipn i s.
Proof.
  intros Hi. unfold substring. apply firstn_all2.
  rewrite length_skipn. lia.
Qed.

Lemma replace_class_from (p : code_unit -> bool) (replacement : jsstring)
  (str : jsstring) (n : nat) :
  forall i acc,
    length str - i <= n -> i <= length str ->
    build_replacement str (plain_substitution replacement)
      (collect_matches (Class p) str i) acc i
    = acc ++ flat_map (fun c => if p c then replacement else [c])
               (skipn i str).
Proof.
  induction n as [n IH] using lt_wf_ind. intros i acc Hn Hi.
  rewrite collect_matches_step. unfold RegExp_exec.
  destruct (Nat.ltb_spec (length str) i) as [Hlt|_]; [lia|].
  rewrite search_class.
  destruct (first_index p (skipn i str)) as [k|] eqn:Hk.
  - destruct (first_index_some p replacement _ Hk) as [Hlt Hm].
    rewrite length_skipn in Hlt.
    cbn [build_replacement Nat.eqb].
    destruct (Nat.leb_spec i (i + k)) as [_|Hc]; [|lia].
    rewrite (IH (length str - (i + k + 1))) by lia.
    rewrite Hm. unfold substring, plain_substitution.
    replace (i + k - i) with k by lia.
    replace (i + k + 1) with (S k + i) by lia.
    rewrite <- skipn_skipn, <- !app_assoc. reflexivity.
  - cbn [build_replacement].
    rewrite (first_index_none p replacement _ Hk).
    destruct (Nat.leb_spec (length str) i) as [Hge|Hlt].
    + rewrite skipn_all2 by lia. symmetry. apply app_nil_r.
    + rewrite firstn_skipn_all by lia. reflexivity.
Qed.

Lemma replace_class (p : code_unit -> bool) (replacement str : jsstring) :
  String_replace_global (Class p) replacement str
  = flat_map (fun c => if p c then replacement else [c]) str.
Proof.
  unfold String_replace_global.
  rewrite (@replace_class_from p replacement str (length str)) by lia.
  reflexivity.
Qed.

Lemma flat_map_single (p : code_unit -> bool) (c' : code_unit)
  (s : jsstring) :
  flat_map (fun c => if p c then [c'] else [c]) s
  = map (fun c => if p c then c' else c) s.
Proof.
  induction s as [|c s IH]; [reflexivity|].
  cbn [flat_map map]. rewrite IH. destruct (p c); reflexivity.
Qed.

(* ===================================================================== *)
(** ** The page: names, list, and what makes it throw *)
(* ===================================================================== *)

Lemma lit_space : lit " " = [space].
Proof. reflexivity. Qed.

Lemma replace_spaced (s : jsstring) :
  String_replace_global underscore_regex (lit " ") s = spaced s.
Proof.
  unfold underscore_regex. rewrite replace_class, lit_space.
  apply flat_map_single.
Qed.

Lemma spaced_no_underscore (s : jsstring) :
  existsb is_underscore (spaced s) = false.
Proof.
  induction s as [|c s IH]; [reflexivity|].
  unfold spaced in *. cbn [map existsb]. rewrite IH.
  destruct (is_underscore c) eqn:Hc; [reflexivity|].
  rewrite Hc. reflexivity.
Qed.

(** X13. [replace(/_/g, " ")] writes a space for every underscore of the
    name and leaves every other code unit where it was: the result has
    the length of the name and holds no underscore. *)
Theorem underscores_become_spaces (s : jsstring) :
  String_replace_global underscore_regex (lit " ") s = spaced s
  /\ length (String_replace_global underscore_regex (lit " ") s) = length s
  /\ existsb is_underscore
       (String_replace_global underscore_regex (lit " ") s) = false.
Proof.
  rewrite replace_spaced. split; [reflexivity|]. split.
  - apply length_map.
  - apply spaced_no_underscore.
Qed.

Lemma Number_of_Z_positive (n : Z) :
  (0 < n)%Z -> (n < 2 ^ 53)%Z -> SFltb zero (Number_of_Z n) = true.
Proof.
  intros Hpos Hlt. unfold Number_of_Z, binary_normalize.
  destruct n as [|p|p]; try lia.
  destruct (@binary_round_integer false p Hlt) as [m [e [Hr _]]].
  rewrite Hr. reflexivity.
Qed.

(** The view a success response with a truthy [results] leaves. *)
Lemma success_view (st : View) (resp : Response) (data v : value) :
  tokenize (symptoms st) <> [] ->
  ok resp = true ->
  json resp = Fulfilled data ->
  Get data (lit "results") = inr v ->
  ToBoolean v = true ->
  final_view st (Local.handleDiagnose st (Fulfilled resp))
  = {| symptoms := symptoms st; results := v; loading := false;
       error := JStr (lit "") |}.
Proof.
  intros Htok Hok Hjson Hres Hv. unfold_handlers.
  destruct (tokenize (symptoms st)) as [|t ts]; [contradiction|].
  cbn. rewrite Hok, Hjson. cbn. rewrite Hres. cbn. rewrite Hv. cbn.
  reflexivity.
Qed.

(** After a Submit the view holds no message, or a truthy one and no
    result. *)
Lemma message_without_results (st : View) (net : settle Response) :
  error (final_view st (Local.handleDiagnose st net)) = JStr (lit "")
  \/ (results (final_view st (Local.handleDiagnose st net)) = JArr []
      /\ ToBoolean (error (final_view st (Local.handleDiagnose st net)))
         = true
      /\ symptoms (final_view st (Local.handleDiagnose st net))
         = symptoms st).
Proof.
  unfold_handlers.
  destruct (tokenize (symptoms st)) as [|t ts].
  - right. repeat split.
  - destruct net as [resp|e|]; run_cases;
      first [ left; reflexivity
            | right; repeat split;
              try (apply logical_or_truthy; reflexivity) ].
Qed.

Section PageFacts.

Variable StringToNumber : jsstring -> number.
Variable ObjectToNumber : value -> number.
Variable Number_toString_other : number -> jsstring.

Lemma length_guard (n : nat) :
  (Z.of_nat n < 2 ^ 53)%Z ->
  greater_than_zero StringToNumber ObjectToNumber
    (JNum (Number_of_Z (Z.of_nat n)))
  = negb (n =? 0).
Proof.
  intros Hn. unfold greater_than_zero, ToNumber.
  destruct n as [|n]; [reflexivity|].
  apply Number_of_Z_positive; [lia | exact Hn].
Qed.

Lemma named_object (r : value) :
  named r = true ->
  exists fields d,
    r = JObj fields /\ own_property (lit "disease") fields = Some (JStr d).
Proof.
  unfold named, Get. destruct r as [| | | | |items|fields]; try discriminate.
  destruct (own_property (lit "disease") fields) as [[]|] eqn:Hd;
    try discriminate.
  intros _. eauto.
Qed.

Lemma Get_object (fields : list (jsstring * value)) (key : jsstring) :
  exists v, Get (JObj fields) key = inr v.
Proof.
  unfold Get. destruct (own_property key fields); eauto.
Qed.

Lemma render_entry_named (r : value) (i : nat) :
  named r = true ->
  exists it,
    (render_entry StringToNumber ObjectToNumber
       Number_toString_other) r i = inr it /\ item_key it = i /\ (shows StringToNumber ObjectToNumber
       Number_toString_other) r it.
Proof.
  intros Hr. destruct (named_object r Hr) as [fields [d [-> Hd]]].
  assert (Hg : Get (JObj fields) (lit "disease") = inr (JStr d))
    by (unfold Get; rewrite Hd; reflexivity).
  destruct (Get_object fields (lit "matched")) as [m Hm].
  destruct (Get_object fields (lit "total")) as [t Ht].
  destruct (Get_object fields (lit "confidence")) as [c Hc].
  unfold render_entry. rewrite Hg. cbn [call_replace]. rewrite Hm, Ht.
  unfold confidence_percent at 1. rewrite Hc.
  eexists. split; [reflexivity|]. split; [reflexivity|].
  exists d. cbn [item_label item_matched item_total item_percent].
  split; [exact Hg|]. split; [apply replace_spaced|].
  split; [exact Hm|]. split; [exact Ht|].
  unfold confidence_percent. rewrite Hc. reflexivity.
Qed.

Lemma render_entry_nameless (r : value) (i : nat) :
  named r = false ->
  exists msg, (render_entry StringToNumber ObjectToNumber
       Number_toString_other) r i = inl (ErrorObject "TypeError" msg).
Proof.
  unfold named, render_entry.
  destruct (Get r (lit "disease")) as [e|d] eqn:Hg.
  - intros _. destruct r as [| | | | |items|fields]; cbn in Hg;
      try discriminate; try (injection Hg as <-; eauto).
    destruct (own_property (lit "disease") fields); discriminate.
  - destruct d as [| | | | |items|fields]; try discriminate; intros _;
      cbn; try destruct (own_property (lit "replace") fields); eauto.
Qed.


Lemma Array_map_nameless (items : list value) :
  forall i,
    forallb named items = false ->
    exists msg,
      Array_map (render_entry StringToNumber ObjectToNumber
       Number_toString_other) items i = inl (ErrorObject "TypeError" msg).
Proof.
  induction items as [|r rest IH]; intros i Hsome; [discriminate|].
  cbn [forallb] in Hsome. cbn [Array_map].
  destruct (named r) eqn:Hr.
  - destruct (render_entry_named r i Hr) as [it [Hit _]]. rewrite Hit.
    destruct (IH (S i) Hsome) as [msg Hmsg]. rewrite Hmsg. eauto.
  - destruct (render_entry_nameless r i Hr) as [msg Hmsg]. rewrite Hmsg.
    eauto.
Qed.

Lemma render_results_array (items : list value) :
  items <> [] ->
  (Z.of_nat (length items) < 2 ^ 32)%Z ->
  (render_results StringToNumber ObjectToNumber
       Number_toString_other) (JArr items)
  = match Array_map (render_entry StringToNumber ObjectToNumber
       Number_toString_other) items 0 with
    | inl e => inl e
    | inr shown => inr (ResultsList shown)
    end.
Proof.
  intros Hne Hlen. unfold render_results. cbn [Get_length].
  rewrite length_guard by (assert (2 ^ 32 < 2 ^ 53)%Z by reflexivity; lia).
  destruct items; [contradiction | reflexivity].
Qed.




(** X15. A success response whose [results] is an array with an entry
    that has no string under [disease] (the key is missing, or holds
    null, a number, a boolean, an array or an object, or the entry is
    null or no object): the page throws a TypeError, and no item of the
    list is shown. *)
Theorem entry_without_name_throws (st : View) (resp : Response)
  (data : value) (items : list value) :
  tokenize (symptoms st) <> [] ->
  ok resp = true ->
  json resp = Fulfilled data ->
  Get data (lit "results") = inr (JArr items) ->
  (Z.of_nat (length items) < 2 ^ 32)%Z ->
  forallb named items = false ->
  exists msg,
    App StringToNumber ObjectToNumber Number_toString_other
      (final_view st (Local.handleDiagnose st (Fulfilled resp)))
    = inl (ErrorObject "TypeError" msg).
Proof.
  intros Htok Hok Hjson Hres Hlen Hsome.
  rewrite (@success_view _ _ _ _ Htok Hok Hjson Hres eq_refl).
  destruct (Array_map_nameless items 0 Hsome) as [msg Hmsg].
  exists msg. unfold App. cbn [results].
  rewrite render_results_array;
    [ rewrite Hmsg; reflexivity
    | intros ->; discriminate Hsome
    | exact Hlen ].
Qed.

(** X16. A success response whose [results] is a non-empty string: the
    handler stores the string as the result set, its length is above 0,
    and the page throws the TypeError of calling [map] on a string. *)
Theorem string_results_throw (st : View) (resp : Response)
  (data : value) (s : jsstring) :
  tokenize (symptoms st) <> [] ->
  ok resp = true ->
  json resp = Fulfilled data ->
  Get data (lit "results") = inr (JStr s) ->
  s <> [] ->
  (Z.of_nat (length s) < 2 ^ 53)%Z ->
  App StringToNumber ObjectToNumber Number_toString_other
      (final_view st (Local.handleDiagnose st (Fulfilled resp)))
  = inl (ErrorObject "TypeError" (lit "results.map is not a function")).
Proof.
  intros Htok Hok Hjson Hres Hne Hlen.
  assert (Hs : ToBoolean (JStr s) = true)
    by (destruct s; [contradiction | reflexivity]).
  rewrite (@success_view _ _ _ _ Htok Hok Hjson Hres Hs).
  unfold App, render_results. cbn [results Get_length].
  rewrite length_guard by exact Hlen.
  destruct s; [contradiction | reflexivity].
Qed.

(** X17. A success response whose [results] is truthy and has no length
    ([true], a number other than 0 and NaN, an object without the key):
    the page shows neither a list nor a message, and does not throw. *)
Theorem lengthless_results_show_nothing (st : View) (resp : Response)
  (data v : value) :
  tokenize (symptoms st) <> [] ->
  ok resp = true ->
  json resp = Fulfilled data ->
  Get data (lit "results") = inr v ->
  ToBoolean v = true ->
  lengthless v = true ->
  App StringToNumber ObjectToNumber Number_toString_other
      (final_view st (Local.handleDiagnose st (Fulfilled resp)))
  = inr (answer_screen st ResultsHidden).
Proof.
  intros Htok Hok Hjson Hres Hv Hl.
  rewrite (@success_view _ _ _ _ Htok Hok Hjson Hres Hv).
  unfold App, render_results. cbn [results].
  destruct v as [| |b|x|s|items|fields]; try discriminate Hl;
    try reflexivity.
  unfold lengthless in Hl. cbn [Get_length Get].
  destruct (own_property (lit "length") fields); [discriminate Hl|].
  reflexivity.
Qed.

(** X18. An entry whose [confidence] is falsy (missing, null, false, 0,
    NaN or the empty string) is written as "0%". *)
Theorem falsy_confidence_zero (r c : value) :
  Get r (lit "confidence") = inr c ->
  ToBoolean c = false ->
  confidence_percent StringToNumber ObjectToNumber Number_toString_other r
  = inr (lit "0%").
Proof.
  intros Hget Hc. unfold confidence_percent, logical_or.
  rewrite Hget, Hc. reflexivity.
Qed.

(** X19. Whenever a Submit leaves a message that is no array and no
    object (the validation message, the fallback, the generic one, or a
    message of the response that is a string, a number or [true]),
    [App] does not throw: it returns the message as the child of the
    paragraph, no list, and the input as it was. *)
Theorem message_shown_without_list (st : View) (net : settle Response) :
  error (final_view st (Local.handleDiagnose st net)) <> JStr (lit "") ->
  is_primitive (error (final_view st (Local.handleDiagnose st net))) = true ->
  App StringToNumber ObjectToNumber Number_toString_other
      (final_view st (Local.handleDiagnose st net))
  = inr (message_screen (final_view st (Local.handleDiagnose st net)))
  /\ textarea_value
       (message_screen (final_view st (Local.handleDiagnose st net)))
     = symptoms st.
Proof.
  intros Herr _.
  destruct (message_without_results st net) as [He|[Hres [Htrue Hsym]]];
    [contradiction|].
  split; [|exact Hsym].
  unfold App, message_screen, render_error. rewrite Hres, Htrue.
  reflexivity.
Qed.

End PageFacts.


Lemma entry_without_name_throws_witness :
  exists msg,
    App no_number no_object_number no_other_digits
      (final_view (view_with "fever, cough")
         (Local.handleDiagnose (view_with "fever, cough")
            (Fulfilled
               (json_response
                  (JObj [(lit "results", JArr [common_cold; nameless])])))))
    = inl (ErrorObject "TypeError" msg).
Proof.
  apply (@entry_without_name_throws no_number no_object_number
           no_other_digits (view_with "fever, cough")
           (json_response
              (JObj [(lit "results", JArr [common_cold; nameless])]))
           (JObj [(lit "results", JArr [common_cold; nameless])])
           [common_cold; nameless]); try reflexivity.
  vm_compute. discriminate.
Defined.

Lemma string_results_throw_witness :
  App no_number no_object_number no_other_digits
    (final_view (view_with "fever")
       (Local.handleDiagnose (view_with "fever")
          (Fulfilled
             (json_response (JObj [(lit "results", JStr (lit "none"))])))))
  = inl (ErrorObject "TypeError" (lit "results.map is not a function")).
Proof.
  apply (@string_results_throw no_number no_object_number no_other_digits
           (view_with "fever")
           (json_response (JObj [(lit "results", JStr (lit "none"))]))
           (JObj [(lit "results", JStr (lit "none"))]) (lit "none"));
    try reflexivity.
  - vm_compute. discriminate.
  - vm_compute. discriminate.
Defined.

Lemma lengthless_results_show_nothing_witness :
  App no_number no_object_number no_other_digits
    (final_view (view_with "fever")
       (Local.handleDiagnose (view_with "fever")
          (Fulfilled
             (json_response (JObj [(lit "results", JBool true)])))))
  = inr (answer_screen (view_with "fever") ResultsHidden).
Proof.
  apply (@lengthless_results_show_nothing no_number no_object_number
           no_other_digits (view_with "fever")
           (json_response (JObj [(lit "results", JBool true)]))
           (JObj [(lit "results", JBool true)]) (JBool true));
    try reflexivity.
  vm_compute. discriminate.
Defined.

Lemma falsy_confidence_zero_witness :
  confidence_percent no_number no_object_number no_other_digits
    (JObj [(lit "disease", JStr (lit "flu")); (lit "confidence", JNull)])
  = inr (lit "0%").
Proof.
  apply (@falsy_confidence_zero no_number no_object_number no_other_digits
           (JObj [(lit "disease", JStr (lit "flu"));
                  (lit "confidence", JNull)]) JNull); reflexivity.
Defined.

Lemma message_shown_without_list_witness :
  App no_number no_object_number no_other_digits
    (final_view (view_with "fever")
       (Local.handleDiagnose (view_with "fever")
          (Fulfilled (json_response numeric_message))))
  = inr (message_screen
           (final_view (view_with "fever")
              (Local.handleDiagnose (view_with "fever")
                 (Fulfilled (json_response numeric_message))))).
Proof.
  destruct (@message_shown_without_list no_number no_object_number
              no_other_digits (view_with "fever")
              (Fulfilled (json_response numeric_message))) as [H _].
  - vm_compute. discriminate.
  - reflexivity.
  - exact H.
Defined.
